(** * hemspy: zone visits, transfer matching and HEMS weather minima

    A shallow embedding of [preprocess/find_transfers.py] and
    [preprocess/infer_hems_minima.py].

    Conventions used for the pandas data:
    - a DataFrame is a list of row records, in row order;
    - a float column is [option Q]: [None] is NaN, and every comparison
      with NaN is false; arithmetic on finite values is exact;
    - a nullable timestamp is [option Z]: [None] is NaT;
    - an object column holding True / False / NaN is [option bool]. *)

From Stdlib Require Import QArith Lqa.
From stdpp Require Import base option list sorting strings.

Local Open Scope Z_scope.

(** ** Comparisons on float columns *)

Definition Qgeb (x y : Q) : bool := Qle_bool y x.
Definition Qgtb (x y : Q) : bool := negb (Qle_bool x y).
Definition Qltb (x y : Q) : bool := negb (Qle_bool y x).

(** [np.isnan] on a float cell. *)
Definition isnan {A} (x : option A) : bool :=
  match x with None => true | Some _ => false end.

(** ** preprocess/infer_hems_minima.py *)

Module infer_hems_minima.

(** One METAR observation, with the columns [hems_minima] reads:
    [daylight] is the truth value of its cell, the other three cells are
    floats. *)
Record Observation := {
  daylight : bool;
  metar_cloud_ceiling : option Q;
  metar_cloud_base : option Q;
  metar_visibility : option Q
}.

(** [hems_minima(row)].  After the [isnan] tests both cells are finite;
    the branches are kept in the order of the source. *)
Definition hems_minima (row : Observation) : option bool :=
  let cloud_ceiling := metar_cloud_ceiling row in
  let cloud_base := metar_cloud_base row in
  let visibility := metar_visibility row in
  if daylight row then
    match cloud_ceiling, visibility with
    | Some c, Some v =>
        if Qgeb c 400 && Qltb c 500 then Some (Qgeb v 1000)
        else if Qgeb c 300 && Qltb c 400 then Some (Qgeb v 2000)
        else if Qgeb c 500 then Some (Qgeb v 800)
        else Some false
    | _, _ => None
    end
  else
    match cloud_base, visibility with
    | Some b, Some v => Some (Qgeb b 1200 && Qgeb v 2500)
    | _, _ => None
    end.

(** A row of the frame given to [hems_minima_window]: the airport, the
    observation time in nanoseconds and the [hems_minima] column. *)
Record Verdict := {
  icao : string;
  time_utc : Z;
  hems_minima_col : option bool
}.

(** A row of the returned frame: the input row and the new column. *)
Record Windowed := {
  base : Verdict;
  hems_minima_window_col : option bool
}.

(** Rolling works on float64: True is 1.0, False is 0.0, NaN stays. *)
Definition to_float (x : option bool) : option Q :=
  match x with
  | Some true => Some 1%Q
  | Some false => Some 0%Q
  | None => None
  end.

(** [period.any()] skips NaN and tests for a non-zero value. *)
Definition truthy (x : option Q) : bool :=
  match x with
  | Some q => negb (Qeq_bool q 0)
  | None => false
  end.

(** The inner function [weather_minima(period)]. *)
Definition weather_minima (period : list (option Q)) : option bool :=
  if forallb isnan period then None
  else Some (if existsb truthy period then true else false).

(** '241Min' in nanoseconds. *)
Definition default_window : Z := 241 * 60 * 1000000000.

(** Bounds of pandas' variable window for [center=True] and the default
    [closed='right']: row [t'] is in the window of row [t] when
    [t - window/2 < t' <= t + window/2]; when the window is an odd number
    of nanoseconds both ends are closed. *)
Definition in_window (window t t' : Z) : bool :=
  let half := window / 2 in
  (if Z.odd window then t - half <=? t' else t - half <? t')
  && (t' <=? t + half).

(** [rolling(...)['hems_minima'].apply(weather_minima)] on one sorted
    group.  pandas calls the function only on windows holding at least
    [min_periods = 1] finite values, and stores NaN otherwise; the value
    returned by the function is stored as a float. *)
Definition rolling_apply (window : Z) (group : list Verdict) : list (option Q) :=
  map (fun r =>
         let period :=
           map (fun r' => to_float (hems_minima_col r'))
               (filter (fun r' => in_window window (time_utc r) (time_utc r') = true) group) in
         if (1 <=? length (filter (fun x => isnan x = false) period))%nat
         then to_float (weather_minima period)
         else None)
      group.

(** [.map({1: True, 0: False, None: np.NaN})]. *)
Definition map_window (x : option Q) : option bool :=
  match x with
  | Some q => if Qeq_bool q 1 then Some true
              else if Qeq_bool q 0 then Some false else None
  | None => None
  end.

Definition string_le (a b : string) : Prop := String.leb a b = true.

#[global] Instance string_le_dec a b : Decision (string_le a b).
Proof. unfold string_le. apply _. Defined.

(** Group keys of [d.groupby('icao')]: the distinct airports, sorted. *)
Definition group_keys (d : list Verdict) : list string :=
  merge_sort string_le (remove_dups (map icao d)).

(** [group.sort_values(by='time_utc')]. *)
Definition time_le (a b : Verdict) : Prop := time_utc a <= time_utc b.

#[global] Instance time_le_dec a b : Decision (time_le a b).
Proof. unfold time_le. apply _. Defined.

Definition sort_by_time (group : list Verdict) : list Verdict :=
  merge_sort time_le group.

(** [hems_minima_window(d, window)].  Inside the loop the new column still
    holds the floats written by rolling; the final [map] turns them into
    True / False / NaN. *)
Definition hems_minima_window (d : list Verdict) (window : Z) : list Windowed :=
  let results :=
    map (fun airport =>
           let group := sort_by_time (filter (fun r => icao r = airport) d) in
           let result := rolling_apply window group in
           zip group result)
        (group_keys d) in
  let res_df := concat results in
  map (fun rw => {| base := fst rw;
                    hems_minima_window_col := map_window (snd rw) |})
      res_df.

End infer_hems_minima.

(** ** preprocess/find_transfers.py *)

Module find_transfers.

(** The [geometry] column: the point of a position record (longitude,
    latitude).  The projected distance between two points is computed by
    geopandas; the functions below take it as the argument [distance_m]
    (metres in EPSG:32634). *)
Definition Geometry : Type := (Q * Q)%type.

(** A position record joined with the zone it lies in, as produced by
    [filter_flight_data].  [UTC] is built from [snapshot_id] with
    [unit='s'], so times are whole seconds.  The zone columns are NaN
    outside every zone. *)
Module Position.
Record t := {
  aircraft_id : Z;
  UTC : Z;
  zone_name : option string;
  dwell_time : option Q;
  is_primary_hospital : option Q;
  geometry : Geometry
}.
End Position.

(** A row of [d_entries_and_exits]: the position record and the columns
    added to it.  [B] is the type of the [is_primary_hospital] column: the
    0/1 code [option Q] before the clean-up, [option bool] after it, and
    [bool] in the frame [create_transfer_dataframe] masks with. *)
Record Visit (B : Type) := {
  aircraft_id : Z;
  UTC : Z;
  zone_name : option string;
  dwell_time : option Q;
  is_primary_hospital : B;
  geometry : Geometry;
  in_helipad_zone : bool;
  UTC_out : option Z;
  time_in_zone : option Q
}.
Arguments aircraft_id {B} _.
Arguments UTC {B} _.
Arguments zone_name {B} _.
Arguments dwell_time {B} _.
Arguments is_primary_hospital {B} _.
Arguments geometry {B} _.
Arguments in_helipad_zone {B} _.
Arguments UTC_out {B} _.
Arguments time_in_zone {B} _.

(** *** extract_entries_and_exits *)

(** [Series.shift()]: every value moves one row down, the first is NaN. *)
Definition shift {A} (l : list A) : list (option A) :=
  take (length l) (None :: map Some l).

(** [Series.ne] against the shifted column; a value differs from NaN. *)
Definition ne (a : bool) (b : option bool) : bool :=
  match b with
  | Some b' => xorb a b'
  | None => true
  end.

(** Column [in_helipad_zone]. *)
Definition in_zone_col (d : list Position.t) : list bool :=
  map (fun p => negb (isnan (Position.zone_name p))) d.

(** Column [zone_change]: the shift runs over the whole frame. *)
Definition zone_change_col (d : list Position.t) : list bool :=
  zip_with ne (in_zone_col d) (shift (in_zone_col d)).

(** Columns [entry] and [exit]. *)
Definition entry_col (d : list Position.t) : list bool :=
  zip_with andb (zone_change_col d) (in_zone_col d).

Definition exit_col (d : list Position.t) : list bool :=
  zip_with andb (zone_change_col d) (map negb (in_zone_col d)).

(** Boolean indexing [d[mask]]. *)
Definition mask_rows {A} (d : list A) (mask : list bool) : list A :=
  map fst (filter (fun rm => snd rm = true) (zip d mask)).

(** [groupby('aircraft_id')['UTC'].shift(-1)] at a row: the [UTC] of the
    next row of the same aircraft, NaT when there is none. *)
Fixpoint next_UTC (a : Z) (rest : list Position.t) : option Z :=
  match rest with
  | [] => None
  | r :: rest' =>
      if Position.aircraft_id r =? a then Some (Position.UTC r)
      else next_UTC a rest'
  end.

(** [(in_helipad_zone * (UTC_out - UTC)).dt.seconds / 60].  The product
    with False is a zero duration; [.dt.seconds] is the seconds component
    of the duration, between 0 and 86399, the whole days being held in
    [.dt.days]. *)
Definition dt_seconds (delta : Z) : Z := delta mod 86400.

Definition time_in_zone_of (in_zone : bool) (utc : Z) (utc_out : option Z) : option Q :=
  match utc_out with
  | Some out =>
      let delta := if in_zone then out - utc else 0 in
      Some (inject_Z (dt_seconds delta) / 60)%Q
  | None => None
  end.

(** The frame [d_entries_and_exits] before the fly-over filter: the rows
    that are an entry or an exit, with [UTC_out] and [time_in_zone]. *)
Fixpoint add_UTC_out (events : list Position.t) : list (Visit (option Q)) :=
  match events with
  | [] => []
  | p :: rest =>
      let in_zone := negb (isnan (Position.zone_name p)) in
      let utc_out := next_UTC (Position.aircraft_id p) rest in
      {| aircraft_id := Position.aircraft_id p;
         UTC := Position.UTC p;
         zone_name := Position.zone_name p;
         dwell_time := Position.dwell_time p;
         is_primary_hospital := Position.is_primary_hospital p;
         geometry := Position.geometry p;
         in_helipad_zone := in_zone;
         UTC_out := utc_out;
         time_in_zone := time_in_zone_of in_zone (Position.UTC p) utc_out |}
      :: add_UTC_out rest
  end.

Definition d_entries_and_exits (d : list Position.t) : list (Visit (option Q)) :=
  add_UTC_out (mask_rows d (zip_with orb (entry_col d) (exit_col d))).

(** [time_in_zone > dwell_time]; false when either side is NaN. *)
Definition flyover_filter {B} (v : Visit B) : bool :=
  match time_in_zone v, dwell_time v with
  | Some t, Some thr => Qgtb t thr
  | _, _ => false
  end.

(** [.map({1: True, 0: False})]: any other value becomes NaN. *)
Definition map_primary (x : option Q) : option bool :=
  match x with
  | Some q => if Qeq_bool q 1 then Some true
              else if Qeq_bool q 0 then Some false else None
  | None => None
  end.

Definition set_primary {B C} (f : B → C) (v : Visit B) : Visit C :=
  {| aircraft_id := aircraft_id v;
     UTC := UTC v;
     zone_name := zone_name v;
     dwell_time := dwell_time v;
     is_primary_hospital := f (is_primary_hospital v);
     geometry := geometry v;
     in_helipad_zone := in_helipad_zone v;
     UTC_out := UTC_out v;
     time_in_zone := time_in_zone v |}.

Definition extract_entries_and_exits (d : list Position.t) : list (Visit (option bool)) :=
  let d_entries_and_exits_no_flyovers :=
    filter (fun v => flyover_filter v = true) (d_entries_and_exits d) in
  map (set_primary map_primary) d_entries_and_exits_no_flyovers.

(** *** create_transfer_dataframe *)

(** A row of the merged frame.  [sending] and [receiving] hold the
    [_sending] and [_receiving] columns, of which [columns_to_keep] returns
    a part.  [sending_row] and [receiving_row] are the labels the two rows
    have in [d_transfer] after [reset_index]; they identify the two
    visits. *)
Record Transfer := {
  transfer_id : Z;
  sending_row : nat;
  sending : Visit bool;
  receiving_row : nat;
  receiving : Visit bool;
  estimated_distance : Q;
  expected_transit_time : Q;
  transit_time : option Q;
  transit_time_outlier : bool;
  transit_time_ratio : option Q
}.

(** [d_transfer] after [reset_index]: the rows with the labels 0, 1, ... *)
Definition reset_index {A} (d : list A) : list (nat * A) :=
  imap (fun i r => (i, r)) d.

(** The mask selecting the landings that match [row_primary]: same
    aircraft, and [UTC] between [UTC_out] of the primary landing and
    [UTC_out + Timedelta(hours=max_transit_time)].  A comparison with NaT
    is false. *)
Definition matches (row_primary : Visit bool) (max_transit_time : Z)
    (t : Visit bool) : bool :=
  (aircraft_id t =? aircraft_id row_primary)
  && match UTC_out row_primary with
     | Some out => (out <=? UTC t) && (UTC t <=? out + max_transit_time * 3600)
     | None => false
     end.

Definition valid_tertiary_landings (d_tertiary : list (nat * Visit bool))
    (row_primary : Visit bool) (max_transit_time : Z) : list (nat * Visit bool) :=
  filter (fun t => matches row_primary max_transit_time (snd t) = true) d_tertiary.

(** The state of the loop: the counter [transfer_id] and the column
    [d_transfer['transfer_id']], NaN at the start. *)
Definition MatchState : Type := (Z * list (option Z))%type.

(** One iteration of the loop over [d_primary.iterrows()]. *)
Definition match_step (d_tertiary : list (nat * Visit bool)) (max_transit_time : Z)
    (st : MatchState) (primary : nat * Visit bool) : MatchState :=
  let '(transfer_id, col) := st in
  let '(idx_primary, row_primary) := primary in
  match valid_tertiary_landings d_tertiary row_primary max_transit_time with
  | [] => (transfer_id, col)
  | (first_valid_idx, _) :: _ =>
      let transfer_id := transfer_id + 1 in
      (transfer_id,
       <[first_valid_idx := Some transfer_id]>
         (<[idx_primary := Some transfer_id]> col))
  end.

(** [not valid_tertiary_landings.empty] for a primary landing. *)
Definition has_match (d_tertiary : list (nat * Visit bool)) (max_transit_time : Z)
    (primary : nat * Visit bool) : bool :=
  match valid_tertiary_landings d_tertiary (snd primary) max_transit_time with
  | [] => false
  | _ :: _ => true
  end.

(** [valid_tertiary_landings.index[0]], when there is one. *)
Definition first_valid_idx (d_tertiary : list (nat * Visit bool)) (max_transit_time : Z)
    (primary : nat * Visit bool) : option nat :=
  match valid_tertiary_landings d_tertiary (snd primary) max_transit_time with
  | [] => None
  | (first_valid_idx, _) :: _ => Some first_valid_idx
  end.

Definition d_primary (d : list (Visit bool)) : list (nat * Visit bool) :=
  filter (fun r => is_primary_hospital (snd r) = true) (reset_index d).

Definition d_tertiary (d : list (Visit bool)) : list (nat * Visit bool) :=
  filter (fun r => is_primary_hospital (snd r) = false) (reset_index d).

Definition match_loop (d : list (Visit bool)) (max_transit_time : Z)
    (primaries : list (nat * Visit bool)) (st : MatchState) : MatchState :=
  fold_left (match_step (d_tertiary d) max_transit_time) primaries st.

Definition initial_state (d : list (Visit bool)) : MatchState :=
  (0, replicate (length d) None).

(** The column [transfer_id] when the loop has ended. *)
Definition transfer_id_col (d : list (Visit bool)) (max_transit_time : Z) : list (option Z) :=
  snd (match_loop d max_transit_time (d_primary d) (initial_state d)).

(** [d_transfer.dropna(subset=['transfer_id'])]: the rows that have a
    transfer id, with their label and that id. *)
Definition dropna (d : list (Visit bool)) (col : list (option Z)) :
    list (nat * Visit bool * Z) :=
  omap (fun r => match mjoin (col !! fst r) with
                 | Some k => Some (fst r, snd r, k)
                 | None => None
                 end)
       (reset_index d).

(** The columns computed on a merged row. *)
Definition enrich (distance_m : Geometry → Geometry → Q)
    (outlier_factor outlier_offset : Q)
    (s r : nat * Visit bool * Z) : Transfer :=
  let sender := snd (fst s) in
  let receiver := snd (fst r) in
  let estimated_distance := (distance_m (geometry sender) (geometry receiver) / 1000)%Q in
  let expected_transit_time := (estimated_distance / 250 * 60)%Q in
  let transit_time :=
    match UTC_out sender with
    | Some out => Some (inject_Z (UTC receiver - out) / 60)%Q
    | None => None
    end in
  {| transfer_id := snd s;
     sending_row := fst (fst s);
     sending := sender;
     receiving_row := fst (fst r);
     receiving := receiver;
     estimated_distance := estimated_distance;
     expected_transit_time := expected_transit_time;
     transit_time := transit_time;
     transit_time_outlier :=
       match transit_time with
       | Some t => Qgtb t (expected_transit_time * outlier_factor + outlier_offset)%Q
       | None => false
       end;
     transit_time_ratio :=
       match transit_time with
       | Some t => if Qeq_bool expected_transit_time 0 then None
                   else Some (t / expected_transit_time)%Q
       | None => None
       end |}.

(** [pd.merge(sending, receiving, on='transfer_id')]: an inner join that
    keeps the order of the left rows. *)
Definition merge_on_transfer_id (sending receiving : list (nat * Visit bool * Z)) :
    list ((nat * Visit bool * Z) * (nat * Visit bool * Z)) :=
  s ← sending;
  (fun r => (s, r)) <$> filter (fun r => snd r = snd s) receiving.

(** The frame [d_transfers_merged] as the join returns it: the pairs of a
    sending and a receiving row that carry the same transfer id. *)
Definition merged_rows (d : list (Visit bool)) (max_transit_time : Z) :
    list ((nat * Visit bool * Z) * (nat * Visit bool * Z)) :=
  let d_transfer := dropna d (transfer_id_col d max_transit_time) in
  let d_transfers_sending :=
    filter (fun r => is_primary_hospital (snd (fst r)) = true) d_transfer in
  let d_transfer_receiving :=
    filter (fun r => is_primary_hospital (snd (fst r)) = false) d_transfer in
  merge_on_transfer_id d_transfers_sending d_transfer_receiving.

(** [create_transfer_dataframe(d, max_transit_time, remove_outliers,
    outlier_factor, outlier_offset)].  A ratio that is not finite
    (division by an expected time of zero) is given as [None]. *)
Definition create_transfer_dataframe (distance_m : Geometry → Geometry → Q)
    (d : list (Visit bool)) (max_transit_time : Z) (remove_outliers : bool)
    (outlier_factor outlier_offset : Q) : list Transfer :=
  let d_transfers_merged :=
    (fun sr => enrich distance_m outlier_factor outlier_offset (fst sr) (snd sr))
      <$> merged_rows d max_transit_time in
  if remove_outliers
  then filter (fun t => transit_time_outlier t = false) d_transfers_merged
  else d_transfers_merged.

(** [find_transfers]: the masks of [create_transfer_dataframe] raise on a
    column that holds NaN, which is the result [None] here. *)
Definition find_transfers (distance_m : Geometry → Geometry → Q)
    (d : list Position.t) (max_transit_time : Z) (remove_outliers : bool)
    (outlier_factor outlier_offset : Q) : option (list Transfer) :=
  let d_entries_and_exits := extract_entries_and_exits d in
  visits ← mapM (fun v => match is_primary_hospital v with
                          | Some b => Some (set_primary (fun _ => b) v)
                          | None => None
                          end) d_entries_and_exits;
  Some (create_transfer_dataframe distance_m visits max_transit_time
          remove_outliers outlier_factor outlier_offset).

(** *** Example frames *)

Definition landing (a utc out : Z) (primary : bool) : Visit bool :=
  {| aircraft_id := a; UTC := utc; zone_name := Some "helipad";
     dwell_time := Some 5%Q; is_primary_hospital := primary;
     geometry := (0, 0)%Q; in_helipad_zone := true;
     UTC_out := Some out; time_in_zone := Some (inject_Z (out - utc) / 60)%Q |}.

(** Exit from a primary hospital at 10:00, entry at a tertiary hospital
    at 10:45. *)
Definition one_transfer : list (Visit bool) :=
  [ landing 1 35100 36000 true; landing 1 38700 39600 false ].

(** Two primary landings, left at 10:00 and at 10:30, before one tertiary
    landing entered at 10:45. *)
Definition shared_tertiary : list (Visit bool) :=
  [ landing 1 35100 36000 true; landing 1 37200 37800 true;
    landing 1 38700 39600 false ].

(** A transfer over 50 km that takes 40 minutes. *)
Definition slow_transfer : list (Visit bool) :=
  [ landing 1 (-600) 0 true; landing 1 2400 3000 false ].

Definition fifty_km : Geometry → Geometry → Q := fun _ _ => 50000%Q.

Definition position (a utc : Z) (zone : option string) (thr : option Q)
    (code : option Q) : Position.t :=
  {| Position.aircraft_id := a; Position.UTC := utc;
     Position.zone_name := zone; Position.dwell_time := thr;
     Position.is_primary_hospital := code; Position.geometry := (0, 0)%Q |}.

(** One aircraft stays in a zone for 24 h 10 min; the zone asks for a
    dwell of more than 20 minutes. *)
Definition long_stay : list Position.t :=
  [ position 7 0 (Some "Lycksele") (Some 20%Q) (Some 1%Q);
    position 7 87000 None None None ].

(** One aircraft stays in a zone for 15 minutes; the threshold is 5. *)
Definition short_stay : list Position.t :=
  [ position 7 0 (Some "Lycksele") (Some 5%Q) (Some 1%Q);
    position 7 900 None None None ].

(** Two aircraft, each sorted by time and kept together, as
    [filter_flight_data] returns them.  Aircraft 2 starts inside a zone and
    leaves it after ten minutes; the only record of aircraft 1 is inside a
    zone or not. *)
Definition two_aircraft (first_in_zone : bool) : list Position.t :=
  [ (if first_in_zone
     then position 1 0 (Some "Umea") (Some 5%Q) (Some 0%Q)
     else position 1 0 None None None);
    position 2 0 (Some "Lycksele") (Some 5%Q) (Some 1%Q);
    position 2 600 None None None ].

(** The records of two aircraft interleaved: aircraft 1 is inside a zone
    in both of its records. *)
Definition interleaved : list Position.t :=
  [ position 1 0 (Some "Umea") (Some 5%Q) (Some 0%Q);
    position 2 5 None None None;
    position 1 10 (Some "Umea") (Some 5%Q) (Some 0%Q) ].

(** One aircraft lands at a primary hospital for 15 minutes, flies for 45
    minutes and lands at another hospital for 20 minutes. *)
Definition one_flight : list Position.t :=
  [ position 7 0 (Some "Lycksele") (Some 5%Q) (Some 1%Q);
    position 7 900 None None None;
    position 7 3600 (Some "Umea") (Some 5%Q) (Some 0%Q);
    position 7 4800 None None None ].

(** The same flight, with the code 2 on the second zone. *)
Definition bad_code : list Position.t :=
  [ position 7 0 (Some "Lycksele") (Some 5%Q) (Some 1%Q);
    position 7 900 None None None;
    position 7 3600 (Some "Umea") (Some 5%Q) (Some 2%Q);
    position 7 4800 None None None ].

End find_transfers.

(** ** preprocess/parse_metar.py *)

Module parse_metar.

(** A Python [str] as a [string]: one [ascii] per code point, which covers
    the Latin-1 range; METAR reports are ASCII. *)

(** [str.isspace] on one character of that range: tab to carriage return,
    the four separators 0x1c to 0x1f, the space, NEL and the no-break
    space. *)
Definition isspace (c : Ascii.ascii) : bool :=
  let n := Ascii.nat_of_ascii c in
  ((9 <=? n) && (n <=? 13) || (28 <=? n) && (n <=? 32)
   || (n =? 133) || (n =? 160))%nat.

(** [needle in s]. *)
Fixpoint contains (needle s : string) : bool :=
  String.prefix needle s
  || match s with
     | EmptyString => false
     | String _ s' => contains needle s'
     end.

(** [s.replace(old, "")] for a pattern [old] that is not empty: the
    occurrences are taken from the left, [skip] counts the characters of
    the occurrence that are still to be dropped. *)
Fixpoint remove_from (old : string) (skip : nat) (s : string) : string :=
  match s with
  | EmptyString => EmptyString
  | String c s' =>
      match skip with
      | S n => remove_from old n s'
      | O => if String.prefix old s
             then remove_from old (String.length old - 1) s'
             else String c (remove_from old 0 s')
      end
  end.

(** [s.split()]: the maximal runs of characters that are not white
    space. *)
Fixpoint split (s : string) : list string :=
  match s with
  | EmptyString => []
  | String c s' =>
      if isspace c then split s'
      else match s' with
           | EmptyString => [String c EmptyString]
           | String c' _ =>
               if isspace c' then String c EmptyString :: split s'
               else match split s' with
                    | tok :: toks => String c tok :: toks
                    | [] => [String c EmptyString]
                    end
           end
  end.

(** [preprocess_metar(metar)]; [None] is Python's [None]. *)
Definition preprocess_metar (metar : string) : option string :=
  let metar := remove_from "COR" 0 metar in
  let metar_parts := split metar in
  if (3 <=? length metar_parts)%nat
  then Some (String.concat " " (delete 2%nat metar_parts))
  else None.

(** What the helpers read from [Metar.Metar(metar, strict=False)]: the
    visibility in metres, when the report has one, and the sky layers with
    their cover and their height in feet, which may be [None]. *)
Record Observation := {
  vis : option Q;
  sky : list (string * option Q)
}.

(** The value a helper returns for one report: [None], a number or the
    string 'ParserError'. *)
Inductive Cell :=
  | Missing
  | Number (q : Q)
  | ParserError.

Section Helpers.

(** The parser of the [metar] package; [None] stands for a raised
    [Metar.ParserError]. *)
Variable Metar : string → option Observation.

(** [get_horisontal_visibility(metar)]. *)
Definition get_horisontal_visibility (metar : option string) : Cell :=
  match metar with
  | None => Missing
  | Some metar =>
      if contains "CAVOK" metar then Number 9999
      else match Metar metar with
           | Some observation =>
               match vis observation with
               | Some v => Number v
               | None => Missing
               end
           | None => ParserError
           end
  end.

(** [[tup[1].value(units="FT") for tup in observation.sky if tup[0] ==
    cover]]; a layer of that cover without a height raises, which is
    [None] here. *)
Definition heights (cover : string) (sky : list (string * option Q)) : option (list Q) :=
  mapM snd (filter (fun tup => fst tup = cover) sky).

(** [[9999 for tup in observation.sky if tup[0] == cover]]. *)
Definition unlimited (cover : string) (sky : list (string * option Q)) : list Q :=
  map (fun _ => 9999%Q) (filter (fun tup => fst tup = cover) sky).

(** [min(values)] for a list that is not empty. *)
Definition min_of (first : Q) (rest : list Q) : Q :=
  fold_left (fun m x => if Qle_bool m x then m else x) rest first.

(** [get_ceiling(metar)]. *)
Definition get_ceiling (metar : option string) : Cell :=
  match metar with
  | None => Missing
  | Some metar =>
      if contains "CAVOK" metar then Number 9999
      else match Metar metar with
           | Some observation =>
               match sky observation with
               | [] => Missing
               | _ :: _ =>
                   match heights "BKN" (sky observation),
                         heights "OVC" (sky observation),
                         heights "VV" (sky observation) with
                   | Some bkn, Some ovc, Some vv =>
                       let ncd := unlimited "NCD" (sky observation) in
                       let nsc := unlimited "NSC" (sky observation) in
                       let ceilings := ovc ++ bkn ++ vv ++ ncd ++ nsc in
                       match ceilings with
                       | c :: rest => Number (min_of c rest)
                       | [] => Number 9999
                       end
                   | _, _, _ => Missing
                   end
               end
           | None => ParserError
           end
  end.

(** [get_base(metar)]. *)
Definition get_base (metar : option string) : Cell :=
  match metar with
  | None => Missing
  | Some metar =>
      if contains "CAVOK" metar then Number 9999
      else match Metar metar with
           | Some observation =>
               match sky observation with
               | [] => Missing
               | _ :: _ =>
                   match heights "FEW" (sky observation),
                         heights "SCT" (sky observation),
                         heights "BKN" (sky observation),
                         heights "OVC" (sky observation),
                         heights "VV" (sky observation) with
                   | Some few, Some sct, Some bkn, Some ovc, Some vv =>
                       let ncd := unlimited "NCD" (sky observation) in
                       let nsc := unlimited "NSC" (sky observation) in
                       let bases := few ++ sct ++ ovc ++ bkn ++ vv ++ ncd ++ nsc in
                       match bases with
                       | b :: rest => Number (min_of b rest)
                       | [] => Missing
                       end
                   | _, _, _, _, _ => Missing
                   end
               end
           | None => ParserError
           end
  end.

(** One row of [parse_metar_str]: the report is preprocessed, then given
    to the three helpers. *)
Definition parse_metar_str (metar : string) : Cell * Cell * Cell :=
  let metar := preprocess_metar metar in
  (get_horisontal_visibility metar, get_ceiling metar, get_base metar).

End Helpers.

(** *** Example reports *)

Definition no_parser : string → option Observation := fun _ => None.

Definition two_layers : string → option Observation :=
  fun _ => Some {| vis := Some 8000%Q;
                   sky := [("FEW", Some 800%Q); ("BKN", Some 1500%Q)] |}.

End parse_metar.

(** ** preprocess/load_flight_data.py *)

Module load_flight_data.

(** The keys of a [groupby]: the distinct values, sorted. *)
Definition groupby_keys (keys : list Z) : list Z :=
  merge_sort Z.le (remove_dups keys).

(** The step of [read_positions_data] taken when [drop_last] is set:
    [positions_df.groupby('flight_id').apply(lambda x: x.iloc[:-1])].  A
    row is given with its [flight_id], an integer after [astype(int)]. *)
Definition drop_last {A} (positions_df : list (Z * A)) : list (Z * A) :=
  concat
    (map (fun flight_id =>
            removelast (filter (fun row => fst row = flight_id) positions_df))
         (groupby_keys (map fst positions_df))).

(** A row of the merged flights and positions, with the columns
    [filter_flight_data] reads.  The columns that come from the flights
    are NaN ([None]) for a position whose flight is not listed. *)
Record Flight := {
  aircraft_id : option Z;
  UTC : Z;
  equip : option string;
  reg : option string;
  geometry : find_transfers.Geometry
}.

(** A row of [airports_gdf], with the columns kept after the join. *)
Record Zone := {
  zone_name : string;
  dwell_time : option Q;
  is_primary_hospital : option Q
}.

(** A row of the joined frame: the position and the zone it was matched
    with, if any. *)
Record Joined := {
  left : Flight;
  right : option Zone
}.

Definition include_equip : list string := ["EC45"; "A139"; "A169"; "S76"; "AS65"].

Definition exclude_callsign : list string :=
  ["SEJSR"; "SEJSP"; "SEJRH"; "SEJRI"; "SERJR"; "SEJRK"; "SEJRL"; "SEJRM"; "SEJRN"].

(** [series.isin(values)] on a column of strings: NaN is in no list of
    strings. *)
Definition isin (x : option string) (values : list string) : Prop :=
  x ∈ (Some <$> values).

#[global] Instance isin_dec x values : Decision (isin x values).
Proof. unfold isin. apply _. Defined.

(** The rows [gpd.sjoin(d, airports_gdf, how='left', predicate='within')]
    makes of one row: one for every zone the point lies within, or one
    with NaN in the zone columns when it lies within none.  [within] gives
    the zones of a point and stands for the geometry of geopandas. *)
Definition sjoin_left (within : find_transfers.Geometry → list Zone) (row : Flight) :
    list Joined :=
  match within (geometry row) with
  | [] => [ {| left := row; right := None |} ]
  | zones => map (fun zone => {| left := row; right := Some zone |}) zones
  end.

(** A joined row as a row of a group: [aircraft] is the key of the
    group. *)
Definition position (aircraft : Z) (j : Joined) : find_transfers.Position.t :=
  {| find_transfers.Position.aircraft_id := aircraft;
     find_transfers.Position.UTC := UTC (left j);
     find_transfers.Position.zone_name := zone_name <$> right j;
     find_transfers.Position.dwell_time := right j ≫= dwell_time;
     find_transfers.Position.is_primary_hospital := right j ≫= is_primary_hospital;
     find_transfers.Position.geometry := geometry (left j) |}.

Definition UTC_le (a b : Joined) : Prop := UTC (left a) <= UTC (left b).

#[global] Instance UTC_le_dec a b : Decision (UTC_le a b).
Proof. unfold UTC_le. apply _. Defined.

(** [d.groupby('aircraft_id').apply(lambda x: x.sort_values('UTC'))]:
    [groupby] leaves out the rows whose key is NaN. *)
Definition sort_groups (d : list Joined) : list find_transfers.Position.t :=
  concat
    (map (fun aircraft =>
            map (position aircraft)
              (merge_sort UTC_le
                 (filter (fun j => aircraft_id (left j) = Some aircraft) d)))
         (groupby_keys (omap (fun j => aircraft_id (left j)) d))).

(** [filter_flight_data(d, airports_gdf, include_equip, exclude_callsign)]. *)
Definition filter_flight_data (within : find_transfers.Geometry → list Zone)
    (d : list Flight) (include_equip exclude_callsign : list string) :
    list find_transfers.Position.t :=
  let d := filter (fun row => isin (equip row) include_equip) d in
  let d := filter (fun row => ¬ isin (reg row) exclude_callsign) d in
  let d := d ≫= sjoin_left within in
  sort_groups d.

(** *** Example frames *)

Definition flight (a utc : Z) (e r : string) : Flight :=
  {| aircraft_id := Some a; UTC := utc; equip := Some e; reg := Some r;
     geometry := (0, 0)%Q |}.

Definition no_zone : find_transfers.Geometry → list Zone := fun _ => [].

Definition raw_positions : list Flight :=
  [ flight 2 50 "EC45" "SEJSA"; flight 1 30 "A139" "SEJSB";
    flight 2 10 "EC45" "SEJSA"; flight 3 5 "B737" "SEABC";
    flight 1 20 "A139" "SEJSB" ].

End load_flight_data.

(** * Properties *)

(** ** Float comparisons *)

Lemma Qgeb_true (x y : Q) : Qgeb x y = true ↔ (y <= x)%Q.
Proof. unfold Qgeb. apply Qle_bool_iff. Qed.

Lemma Qltb_true (x y : Q) : Qltb x y = true ↔ (x < y)%Q.
Proof.
  unfold Qltb. rewrite negb_true_iff.
  destruct (Qle_bool y x) eqn:E.
  - apply Qle_bool_iff in E. split; [discriminate|].
    intros H. exfalso. exact (Qlt_not_le _ _ H E).
  - split; [|reflexivity]. intros _. apply Qnot_le_lt.
    intros H. apply Qle_bool_iff in H. congruence.
Qed.

Lemma Qgtb_true (x y : Q) : Qgtb x y = true ↔ (y < x)%Q.
Proof. exact (Qltb_true y x). Qed.

Lemma Qgeb_false (x y : Q) : Qgeb x y = false ↔ (x < y)%Q.
Proof.
  rewrite <- Qltb_true. unfold Qltb, Qgeb.
  destruct (Qle_bool y x); simpl; split; congruence.
Qed.

Lemma Qltb_false (x y : Q) : Qltb x y = false ↔ (y <= x)%Q.
Proof.
  rewrite <- Qgeb_true. unfold Qltb, Qgeb.
  destruct (Qle_bool y x); simpl; split; congruence.
Qed.

(** ** Weather minima classifier *)

Section Minima.
Import infer_hems_minima.

Ltac q_cases :=
  repeat match goal with
  | |- context [Qgeb ?x ?y] =>
      let E := fresh "E" in
      destruct (Qgeb x y) eqn:E;
      [apply Qgeb_true in E | apply Qgeb_false in E]
  | |- context [Qltb ?x ?y] =>
      let E := fresh "E" in
      destruct (Qltb x y) eqn:E;
      [apply Qltb_true in E | apply Qltb_false in E]
  end; simpl.

Ltac q_absurd :=
  match goal with
  | H1 : (?a <= ?b)%Q, H2 : (?b < ?c)%Q |- _ =>
      exfalso; apply (Qlt_irrefl a);
      apply Qle_lt_trans with b; [exact H1|];
      apply Qlt_le_trans with c; [exact H2|]; solve [auto | discriminate]
  | H1 : (?a < ?b)%Q, H2 : (?b <= ?a)%Q |- _ =>
      exfalso; exact (Qlt_not_le _ _ H1 H2)
  | H1 : (?a <= ?x)%Q, H2 : (?x < ?b)%Q |- _ =>
      exfalso; assert (a < b)%Q by (apply Qle_lt_trans with x; assumption);
      discriminate
  end.

(** C7. Daylight: unknown when ceiling or visibility is missing, false
    below 300 ft, visibility >= 2000 m for a ceiling in [300,400),
    visibility >= 1000 m in [400,500), visibility >= 800 m from 500 ft.
    Night: unknown when cloud base or visibility is missing, otherwise
    true exactly when cloud base >= 1200 ft and visibility >= 2500 m. *)
Theorem hems_minima_rules :
  (∀ row : Observation,
  (daylight row = true →
     (metar_cloud_ceiling row = None ∨ metar_visibility row = None →
        hems_minima row = None) ∧
     (∀ c v, metar_cloud_ceiling row = Some c → metar_visibility row = Some v →
        ((c < 300)%Q → hems_minima row = Some false) ∧
        ((300 <= c)%Q ∧ (c < 400)%Q →
           ∃ b, hems_minima row = Some b ∧ (b = true ↔ (2000 <= v)%Q)) ∧
        ((400 <= c)%Q ∧ (c < 500)%Q →
           ∃ b, hems_minima row = Some b ∧ (b = true ↔ (1000 <= v)%Q)) ∧
        ((500 <= c)%Q →
           ∃ b, hems_minima row = Some b ∧ (b = true ↔ (800 <= v)%Q)))) ∧
  (daylight row = false →
     (metar_cloud_base row = None ∨ metar_visibility row = None →
        hems_minima row = None) ∧
     (∀ cb v, metar_cloud_base row = Some cb → metar_visibility row = Some v →
        ∃ b, hems_minima row = Some b ∧
             (b = true ↔ (1200 <= cb)%Q ∧ (2500 <= v)%Q)))) ∧
  (∀ ceiling : option Q,
     hems_minima {| daylight := false; metar_cloud_ceiling := ceiling;
                    metar_cloud_base := Some 1000%Q;
                    metar_visibility := Some 3000%Q |} = Some false).
Proof.
  split; [| reflexivity].
  intros row. destruct row as [dl cc cb vis]; simpl. split; intros ->.
  - split.
    + unfold hems_minima; simpl. intros [-> | ->]; [reflexivity|].
      destruct cc; reflexivity.
    + intros c v -> ->. unfold hems_minima; simpl.
      repeat split.
      * intros Hc. q_cases; try reflexivity; q_absurd.
      * intros [H1 H2]. exists (Qgeb v 2000).
        split; [| apply Qgeb_true].
        q_cases; try reflexivity; q_absurd.
      * intros [H1 H2]. exists (Qgeb v 1000).
        split; [| apply Qgeb_true].
        q_cases; try reflexivity; q_absurd.
      * intros H1. exists (Qgeb v 800).
        split; [| apply Qgeb_true].
        q_cases; try reflexivity; q_absurd.
  - split.
    + unfold hems_minima; simpl. intros [-> | ->]; [reflexivity|].
      destruct cb; reflexivity.
    + intros b v -> ->. unfold hems_minima; simpl.
      eexists; split; [reflexivity|].
      rewrite andb_true_iff, !Qgeb_true. reflexivity.
Qed.

(** The classifier applied to the spec's daylight scenario. *)
Lemma hems_minima_rules_witness :
  ∃ b, hems_minima {| daylight := true; metar_cloud_ceiling := Some 450%Q;
                      metar_cloud_base := None;
                      metar_visibility := Some 1200%Q |} = Some b
       ∧ (b = true ↔ (1000 <= 1200)%Q).
Proof.
  destruct hems_minima_rules as [H _].
  destruct (H {| daylight := true; metar_cloud_ceiling := Some 450%Q;
                 metar_cloud_base := None;
                 metar_visibility := Some 1200%Q |}) as [Hday _].
  destruct (Hday eq_refl) as [_ Hfin].
  destruct (Hfin 450%Q 1200%Q eq_refl eq_refl) as (_ & _ & H45 & _).
  apply H45. split; unfold Qle, Qlt; simpl; lia.
Defined.

(** C10. At night the verdict is a function of cloud base and visibility
    alone: two night rows that agree on both get the same verdict, whatever
    their cloud ceilings are. *)
Theorem hems_minima_night_ignores_ceiling (r1 r2 : Observation) :
  daylight r1 = false → daylight r2 = false →
  metar_cloud_base r1 = metar_cloud_base r2 →
  metar_visibility r1 = metar_visibility r2 →
  hems_minima r1 = hems_minima r2.
Proof.
  intros D1 D2 Hb Hv. unfold hems_minima.
  rewrite D1, D2, Hb, Hv. reflexivity.
Qed.

Lemma hems_minima_night_ignores_ceiling_witness :
  hems_minima {| daylight := false; metar_cloud_ceiling := Some 100%Q;
                 metar_cloud_base := Some 1500%Q;
                 metar_visibility := Some 3000%Q |}
  = hems_minima {| daylight := false; metar_cloud_ceiling := None;
                   metar_cloud_base := Some 1500%Q;
                   metar_visibility := Some 3000%Q |}.
Proof.
  apply hems_minima_night_ignores_ceiling; reflexivity.
Defined.

(** *** Rolling window *)

Lemma zip_map_self {A B} (F : A → B) (l : list A) :
  zip l (map F l) = map (fun r => (r, F r)) l.
Proof. induction l as [|x l IH]; simpl; [reflexivity | by rewrite IH]. Qed.

Lemma forallb_isnan_to_float (vs : list (option bool)) :
  forallb isnan (map to_float vs) = forallb isnan vs.
Proof. induction vs as [|[[|]|] vs IH]; simpl; auto. Qed.

Lemma existsb_truthy_to_float (vs : list (option bool)) :
  existsb truthy (map to_float vs)
  = existsb (fun v => if v is Some true then true else false) vs.
Proof. induction vs as [|[[|]|] vs IH]; simpl; auto. Qed.

Lemma count_finite_to_float (vs : list (option bool)) :
  (1 <=? length (filter (fun x => isnan x = false) (map to_float vs)))%nat
  = negb (forallb isnan vs).
Proof. induction vs as [|[[|]|] vs IH]; simpl; auto. Qed.

(** The three-valued aggregate the rolling cell ends up holding. *)
Lemma window_cell (vs : list (option bool)) :
  map_window
    (let period := map to_float vs in
     if (1 <=? length (filter (fun x => isnan x = false) period))%nat
     then to_float (weather_minima period) else None)
  = if forallb isnan vs then None
    else Some (existsb (fun v => if v is Some true then true else false) vs).
Proof.
  cbv zeta. rewrite count_finite_to_float. unfold weather_minima.
  rewrite forallb_isnan_to_float, existsb_truthy_to_float.
  destruct (forallb isnan vs); simpl; [reflexivity|].
  destruct (existsb _ vs); reflexivity.
Qed.

Lemma elem_of_group (d : list Verdict) (airport : string) (r : Verdict) :
  r ∈ sort_by_time (filter (fun r => icao r = airport) d)
  ↔ icao r = airport ∧ r ∈ d.
Proof.
  unfold sort_by_time. rewrite (merge_sort_Permutation time_le).
  exact (list_elem_of_filter (fun r => icao r = airport) d r).
Qed.

Lemma elem_of_group_keys (d : list Verdict) (airport : string) :
  airport ∈ group_keys d ↔ ∃ r, r ∈ d ∧ icao r = airport.
Proof.
  unfold group_keys.
  rewrite (merge_sort_Permutation string_le), elem_of_remove_dups.
  rewrite list_elem_of_In, in_map_iff.
  split; intros (r & H1 & H2).
  - exists r. by rewrite list_elem_of_In.
  - exists r. by rewrite <- list_elem_of_In.
Qed.

(** The rows of the returned frame, one by one. *)
Lemma elem_of_hems_minima_window (d : list Verdict) (window : Z) (w : Windowed) :
  w ∈ hems_minima_window d window ↔
  ∃ r, r ∈ d ∧ base w = r ∧
       hems_minima_window_col w =
         let vs := map hems_minima_col
                     (filter (fun r' => in_window window (time_utc r) (time_utc r') = true)
                        (sort_by_time (filter (fun r' => icao r' = icao r) d))) in
         if forallb isnan vs then None
         else Some (existsb (fun v => if v is Some true then true else false) vs).
Proof.
  unfold hems_minima_window.
  rewrite list_elem_of_In, in_map_iff.
  setoid_rewrite in_concat. setoid_rewrite in_map_iff.
  split.
  - intros ([r x] & <- & l & (airport & <- & Hk) & Hin).
    unfold rolling_apply in Hin. rewrite zip_map_self in Hin.
    apply in_map_iff in Hin as (r0 & [= <- <-] & Hr0).
    apply list_elem_of_In, elem_of_group in Hr0 as [<- Hr0].
    exists r0. split; [done|]. split; [done|]. simpl.
    rewrite <- window_cell. simpl. by rewrite map_map.
  - intros (r & Hr & Hb & Hc).
    exists (r, let period :=
                 map (fun r' => to_float (hems_minima_col r'))
                   (filter (fun r' => in_window window (time_utc r) (time_utc r') = true)
                      (sort_by_time (filter (fun r' => icao r' = icao r) d))) in
               if (1 <=? length (filter (fun x => isnan x = false) period))%nat
               then to_float (weather_minima period) else None).
    split.
    + destruct w as [b c]; simpl in *. subst b. f_equal.
      rewrite Hc, <- window_cell. simpl. by rewrite map_map.
    + eexists. split.
      * exists (icao r). split; [reflexivity|].
        apply list_elem_of_In, elem_of_group_keys. by exists r.
      * unfold rolling_apply. rewrite zip_map_self.
        apply in_map_iff. exists r. split; [reflexivity|].
        apply list_elem_of_In, elem_of_group. done.
Qed.

Lemma in_period (d : list Verdict) (window : Z) (r : Verdict) (v : option bool) :
  In v (map hems_minima_col
          (filter (fun r' => in_window window (time_utc r) (time_utc r') = true)
             (sort_by_time (filter (fun r' => icao r' = icao r) d))))
  ↔ ∃ r', (icao r' = icao r ∧ r' ∈ d
           ∧ in_window window (time_utc r) (time_utc r') = true)
          ∧ hems_minima_col r' = v.
Proof.
  rewrite in_map_iff. split.
  - intros (r' & Hv & Hin). exists r'. split; [|done].
    apply list_elem_of_In in Hin.
    apply (list_elem_of_filter
             (fun r' => in_window window (time_utc r) (time_utc r') = true)) in Hin
      as [Hw Hin].
    apply elem_of_group in Hin as [Hi Hin]. done.
  - intros (r' & (Hi & Hin & Hw) & Hv). exists r'. split; [done|].
    apply list_elem_of_In.
    apply (list_elem_of_filter
             (fun r' => in_window window (time_utc r) (time_utc r') = true)).
    split; [done|]. by apply elem_of_group.
Qed.

(** C8. Every observation gets one aggregate.  The aggregate of a row is
    computed from the verdicts of the rows of the same airport whose time
    lies in the centred window of the row: it is unknown when all of them
    are unknown, true when one of them is true, and false otherwise. *)
Theorem hems_minima_window_aggregate (d : list Verdict) (window : Z) :
  (∀ r, r ∈ d → ∃ w, w ∈ hems_minima_window d window ∧ base w = r) ∧
  (∀ w, w ∈ hems_minima_window d window →
     let in_win r' :=
       icao r' = icao (base w) ∧ r' ∈ d
       ∧ in_window window (time_utc (base w)) (time_utc r') = true in
     base w ∈ d ∧
     ((∀ r', in_win r' → hems_minima_col r' = None) →
        hems_minima_window_col w = None) ∧
     ((∃ r', in_win r' ∧ hems_minima_col r' = Some true) →
        hems_minima_window_col w = Some true) ∧
     ((∃ r', in_win r' ∧ hems_minima_col r' ≠ None) →
      (∀ r', in_win r' → hems_minima_col r' ≠ Some true) →
        hems_minima_window_col w = Some false)).
Proof.
  split.
  - intros r Hr.
    eexists {| base := r; hems_minima_window_col := _ |}.
    split; [|reflexivity].
    apply elem_of_hems_minima_window. exists r. simpl. eauto.
  - intros w Hw in_win.
    apply elem_of_hems_minima_window in Hw as (r & Hr & Hb & Hc).
    subst r. split; [done|].
    cbv zeta in Hc.
    set (vs := map hems_minima_col _) in Hc.
    assert (Hvs : ∀ v, In v vs ↔ ∃ r', in_win r' ∧ hems_minima_col r' = v)
      by (intros v; apply in_period).
    assert (Hnone : forallb isnan vs = true
                    ↔ ∀ r', in_win r' → hems_minima_col r' = None).
    { rewrite forallb_forall. split.
      - intros H r' Hr'.
        destruct (hems_minima_col r') as [b|] eqn:Eb; [|done].
        exfalso. assert (isnan (Some b) = true); [|done].
        apply H, Hvs. by exists r'.
      - intros H v Hv. apply Hvs in Hv as (r' & Hr' & <-).
        by rewrite (H r' Hr'). }
    assert (Htrue : existsb (fun v => if v is Some true then true else false) vs = true
                    ↔ ∃ r', in_win r' ∧ hems_minima_col r' = Some true).
    { rewrite existsb_exists. split.
      - intros (v & Hv & Ht). apply Hvs in Hv as (r' & Hr' & <-).
        exists r'. split; [done|].
        by destruct (hems_minima_col r') as [[|]|].
      - intros (r' & Hr' & Ht). exists (Some true). split; [|done].
        apply Hvs. by exists r'. }
    destruct Hnone as [Hnone1 Hnone2]. destruct Htrue as [Htrue1 Htrue2].
    repeat split.
    + intros Hall. by rewrite Hc, (Hnone2 Hall).
    + intros Hex. rewrite Hc.
      destruct (forallb isnan vs) eqn:E.
      * destruct Hex as (r' & Hr' & Ht).
        rewrite (Hnone1 eq_refl r' Hr') in Ht. done.
      * by rewrite (Htrue2 Hex).
    + intros (r' & Hr' & Hsome) Hnot. rewrite Hc.
      destruct (forallb isnan vs) eqn:E.
      * by specialize (Hnone1 eq_refl r' Hr').
      * destruct (existsb _ vs) eqn:E'; [|done].
        destruct (Htrue1 eq_refl) as (r'' & Hr'' & Ht).
        by specialize (Hnot r'' Hr'').
Qed.

(** Two airports, one of them with a true verdict inside the window of an
    unknown one. *)
Lemma hems_minima_window_aggregate_witness :
  let d := [ {| icao := "ESSB"; time_utc := 0; hems_minima_col := Some false |};
             {| icao := "ESSA"; time_utc := 60000000000; hems_minima_col := None |};
             {| icao := "ESSA"; time_utc := 0; hems_minima_col := Some true |} ] in
  let w := {| base := {| icao := "ESSA"; time_utc := 60000000000;
                         hems_minima_col := None |};
              hems_minima_window_col := Some true |} in
  w ∈ hems_minima_window d default_window ∧ hems_minima_window_col w = Some true.
Proof.
  intros d w.
  assert (Hw : w ∈ hems_minima_window d default_window).
  { apply list_elem_of_In. vm_compute. right; left; reflexivity. }
  split; [exact Hw|].
  destruct (hems_minima_window_aggregate d default_window) as [_ H].
  destruct (H w Hw) as (_ & _ & Htrue & _).
  apply Htrue.
  exists {| icao := "ESSA"; time_utc := 0; hems_minima_col := Some true |}.
  split; [|reflexivity].
  split; [reflexivity|]. split; [|reflexivity].
  apply list_elem_of_In. simpl. tauto.
Defined.

End Minima.

(** ** Zone crossings and the dwell filter *)

Section Dwell.
Import find_transfers.

Lemma flyover_filter_set_primary {B C} (f : B → C) (v : Visit B) :
  flyover_filter (set_primary f v) = flyover_filter v.
Proof. reflexivity. Qed.

Lemma flyover_filter_true {B} (v : Visit B) :
  flyover_filter v = true
  ↔ ∃ t thr, time_in_zone v = Some t ∧ dwell_time v = Some thr ∧ (thr < t)%Q.
Proof.
  unfold flyover_filter. split.
  - destruct (time_in_zone v) as [t|]; [|discriminate].
    destruct (dwell_time v) as [thr|]; [|discriminate].
    intros H. apply Qgtb_true in H. eauto.
  - intros (t & thr & -> & -> & H). by apply Qgtb_true.
Qed.

(** A row without a threshold, as the exit rows are, is dropped. *)
Lemma flyover_filter_no_threshold {B} (v : Visit B) :
  dwell_time v = None → flyover_filter v = false.
Proof. unfold flyover_filter. intros ->. by destruct (time_in_zone v). Qed.

(** Every row of [d_entries_and_exits] holds the dwell computed from its
    own [UTC] and [UTC_out]. *)
Lemma add_UTC_out_time_in_zone (events : list Position.t) (v : Visit (option Q)) :
  v ∈ add_UTC_out events →
  time_in_zone v = time_in_zone_of (in_helipad_zone v) (UTC v) (UTC_out v).
Proof.
  induction events as [|p rest IH]; simpl.
  - intros H. by apply elem_of_nil in H.
  - intros H. apply elem_of_cons in H as [-> | H]; [reflexivity | by apply IH].
Qed.

Lemma elem_of_extract (d : list Position.t) (v : Visit (option Q)) :
  v ∈ d_entries_and_exits d →
  set_primary map_primary v ∈ extract_entries_and_exits d
  ↔ flyover_filter v = true.
Proof.
  intros Hv. unfold extract_entries_and_exits.
  rewrite list_elem_of_In, in_map_iff. split.
  - intros (v' & Heq & Hin).
    apply list_elem_of_In in Hin.
    apply (list_elem_of_filter (fun v => flyover_filter v = true)) in Hin as [HF _].
    rewrite <- (flyover_filter_set_primary map_primary v), <- Heq.
    by rewrite flyover_filter_set_primary.
  - intros HF. exists v. split; [reflexivity|].
    apply list_elem_of_In.
    by apply (list_elem_of_filter (fun v => flyover_filter v = true)).
Qed.

(** C5. A candidate row that has a threshold is kept exactly when its
    dwell is defined and strictly above the threshold of that row; it is
    dropped exactly when its exit time is null, which leaves the dwell
    undefined, or when the dwell is at most the threshold.  The filter is
    a total function: a null exit time raises nothing. *)
Theorem dwell_filter_drops (d : list Position.t) (v : Visit (option Q)) (thr : Q) :
  v ∈ d_entries_and_exits d →
  dwell_time v = Some thr →
  (time_in_zone v = None ↔ UTC_out v = None) ∧
  (set_primary map_primary v ∈ extract_entries_and_exits d
     ↔ ∃ t, time_in_zone v = Some t ∧ (thr < t)%Q) ∧
  (set_primary map_primary v ∉ extract_entries_and_exits d
     ↔ UTC_out v = None ∨ ∃ t, time_in_zone v = Some t ∧ (t <= thr)%Q).
Proof.
  intros Hv Hthr.
  pose proof (add_UTC_out_time_in_zone _ _ Hv) as Htz.
  assert (Hnull : time_in_zone v = None ↔ UTC_out v = None).
  { rewrite Htz. unfold time_in_zone_of.
    destruct (UTC_out v); split; congruence. }
  assert (Hkeep : set_primary map_primary v ∈ extract_entries_and_exits d
                  ↔ ∃ t, time_in_zone v = Some t ∧ (thr < t)%Q).
  { rewrite (elem_of_extract d v Hv), flyover_filter_true. split.
    - intros (t & thr' & Ht & Hthr' & Hlt). exists t. split; [done|].
      congruence.
    - intros (t & Ht & Hlt). eauto. }
  split; [exact Hnull|]. split; [exact Hkeep|].
  rewrite Hkeep. split.
  - intros Hno. destruct (time_in_zone v) as [t|] eqn:Et.
    + right. exists t. split; [done|].
      apply Qnot_lt_le. intros Hlt. apply Hno. eauto.
    + left. by apply Hnull.
  - intros [Hout | (t & Ht & Hle)] (t' & Ht' & Hlt).
    + apply Hnull in Hout. congruence.
    + assert (t' = t) by congruence. subst t'.
      exact (Qlt_not_le _ _ Hlt Hle).
Qed.

(** A stay of 15 minutes against a threshold of 5 is kept. *)
Lemma dwell_filter_drops_witness :
  ∃ v, v ∈ d_entries_and_exits short_stay ∧
       set_primary map_primary v ∈ extract_entries_and_exits short_stay.
Proof.
  assert (Hv : ∃ v, d_entries_and_exits short_stay !! 0%nat = Some v)
    by (eexists; reflexivity).
  destruct Hv as [v Hv]. exists v.
  assert (Hin : v ∈ d_entries_and_exits short_stay)
    by (eapply list_elem_of_lookup_2; exact Hv).
  split; [exact Hin|].
  assert (Hthr : dwell_time v = Some 5%Q)
    by (vm_compute in Hv; injection Hv as <-; reflexivity).
  destruct (dwell_filter_drops short_stay v 5%Q Hin Hthr) as (_ & Hkeep & _).
  apply Hkeep. eexists. split.
  - vm_compute in Hv. injection Hv as <-. reflexivity.
  - unfold Qlt; simpl; lia.
Defined.

(** Up to one day the computed dwell is the whole difference. *)
Lemma time_in_zone_below_one_day (utc out : Z) :
  0 <= out - utc < 86400 →
  time_in_zone_of true utc (Some out) = Some (inject_Z (out - utc) / 60)%Q.
Proof.
  intros H. unfold time_in_zone_of, dt_seconds.
  by rewrite Z.mod_small.
Qed.

(** Beyond one day the whole days are lost. *)
Lemma time_in_zone_wraps (utc out : Z) :
  time_in_zone_of true utc (Some out)
  = time_in_zone_of true utc (Some (out + 86400)).
Proof.
  unfold time_in_zone_of, dt_seconds. do 3 f_equal.
  replace (out + 86400 - utc) with (out - utc + 1 * 86400) by lia.
  by rewrite Z.mod_add.
Qed.

(** C6 (the code differs). A stay of 24 h 10 min, that is 1450 minutes, is
    given a [time_in_zone] of 10 minutes, and the fly-over filter with a
    threshold of 20 minutes drops it. *)
Theorem time_in_zone_long_stay :
  map (fun v => (UTC v, UTC_out v, time_in_zone v)) (d_entries_and_exits long_stay)
  = [ (0, Some 87000, Some (inject_Z 600 / 60)%Q); (87000, None, None) ]
  ∧ ¬ (inject_Z 600 / 60 == inject_Z (87000 - 0) / 60)%Q
  ∧ extract_entries_and_exits long_stay = [].
Proof.
  split; [reflexivity|]. split; [|reflexivity].
  unfold Qeq; simpl. lia.
Qed.

(** What the code compares: the first row of the frame is always a
    change, and every other row is compared with the row above it,
    whatever aircraft that row belongs to. *)
Lemma zone_change_col_first (p : Position.t) (d : list Position.t) :
  zone_change_col (p :: d) !! 0%nat = Some true.
Proof. reflexivity. Qed.

Lemma zone_change_col_next (d : list Position.t) (n : nat) (p q : Position.t) :
  d !! n = Some p → d !! S n = Some q →
  zone_change_col d !! S n
  = Some (xorb (negb (isnan (Position.zone_name q)))
               (negb (isnan (Position.zone_name p)))).
Proof.
  intros Hp Hq. unfold zone_change_col, in_zone_col, shift.
  change (map ?f ?l) with (f <$> l).
  rewrite lookup_zip_with, list_lookup_fmap, Hq. simpl.
  rewrite lookup_take_lt
    by (rewrite length_fmap; by eapply lookup_lt_Some).
  simpl. rewrite !list_lookup_fmap, Hp. reflexivity.
Qed.

(** C4 (the code differs). The change of state is taken against the row
    above in the whole frame.  The first record of aircraft 2 is an entry
    only when the record of aircraft 1 above it is outside every zone; and
    in the interleaved frame the second record of aircraft 1 is an entry
    although aircraft 1 was inside the zone in its previous record. *)
Theorem zone_change_crosses_aircraft :
  entry_col (two_aircraft true) = [true; false; false]
  ∧ exit_col (two_aircraft true) = [false; false; true]
  ∧ entry_col (two_aircraft false) = [false; true; false]
  ∧ exit_col (two_aircraft false) = [true; false; true]
  ∧ in_zone_col interleaved = [true; false; true]
  ∧ entry_col interleaved = [true; false; true].
Proof. repeat split. Qed.

End Dwell.

(** ** Transfer matching *)

Section Matcher.
Import find_transfers.

Context (d : list (Visit bool)) (mtt : Z).

Local Abbreviation ts := (d_tertiary d).
Local Abbreviation loop := (match_loop d mtt).
Local Abbreviation merged_rows := (find_transfers.merged_rows d mtt).
Local Abbreviation matched l :=
  (Z.of_nat (length (filter (fun p => has_match ts mtt p = true) l))).

(** *** Rows and labels *)

Lemma elem_of_reset_index {A} (l : list A) (i : nat) (r : A) :
  (i, r) ∈ reset_index l ↔ l !! i = Some r.
Proof.
  unfold reset_index. rewrite elem_of_lookup_imap. split.
  - intros (i' & r' & [= -> ->] & H). exact H.
  - intros H. eauto.
Qed.

Lemma NoDup_reset_index {A} (l : list A) : NoDup (fst <$> reset_index l).
Proof.
  unfold reset_index. rewrite fmap_imap.
  rewrite (imap_ext _ (fun i _ => i)) by done.
  rewrite (imap_seq_0 l (fun i => i)), list_fmap_id.
  apply NoDup_seq.
Qed.

Lemma elem_of_d_primary (i : nat) (r : Visit bool) :
  (i, r) ∈ d_primary d ↔ d !! i = Some r ∧ is_primary_hospital r = true.
Proof.
  unfold d_primary.
  rewrite (list_elem_of_filter (fun r => is_primary_hospital (snd r) = true)).
  rewrite elem_of_reset_index. simpl. tauto.
Qed.

Lemma elem_of_d_tertiary (i : nat) (r : Visit bool) :
  (i, r) ∈ d_tertiary d ↔ d !! i = Some r ∧ is_primary_hospital r = false.
Proof.
  unfold d_tertiary.
  rewrite (list_elem_of_filter (fun r => is_primary_hospital (snd r) = false)).
  rewrite elem_of_reset_index. simpl. tauto.
Qed.

Lemma NoDup_d_primary : NoDup (fst <$> d_primary d).
Proof.
  unfold d_primary.
  eapply sublist_NoDup; [apply (NoDup_reset_index d)|].
  apply fmap_sublist, sublist_filter.
Qed.

(** The landing picked for a primary landing is a tertiary row that
    matches it. *)
Lemma first_valid_tertiary (P : Visit bool) (j : nat) (T : Visit bool) rest :
  valid_tertiary_landings ts P mtt = (j, T) :: rest →
  d !! j = Some T ∧ is_primary_hospital T = false ∧ matches P mtt T = true.
Proof.
  intros H.
  assert (Hin : (j, T) ∈ valid_tertiary_landings ts P mtt)
    by (rewrite H; apply list_elem_of_here).
  unfold valid_tertiary_landings in Hin.
  apply (list_elem_of_filter (fun t => matches P mtt (snd t) = true)) in Hin
    as [Hm Hin].
  apply elem_of_d_tertiary in Hin as [Hj Ht]. done.
Qed.

(** ... and the first such row in the order of [d_tertiary]. *)
Lemma first_valid_earliest (P : Visit bool) (jT : nat * Visit bool) rest :
  valid_tertiary_landings ts P mtt = jT :: rest →
  ∃ before after, ts = before ++ jT :: after
    ∧ Forall (fun t => matches P mtt (snd t) = false) before.
Proof.
  intros H.
  destruct (head_filter_Some (fun t => matches P mtt (snd t) = true) ts jT)
    as (l1 & l2 & Hts & Hno).
  { unfold valid_tertiary_landings in H. by rewrite H. }
  exists l1, l2. split; [exact Hts|].
  eapply Forall_impl; [exact Hno|]. simpl. intros t Ht.
  by destruct (matches P mtt (snd t)).
Qed.

(** *** The loop *)

Lemma loop_app (l1 l2 : list (nat * Visit bool)) (st : MatchState) :
  loop (l1 ++ l2) st = loop l2 (loop l1 st).
Proof. unfold match_loop. apply fold_left_app. Qed.

Lemma loop_cons (p : nat * Visit bool) (l : list (nat * Visit bool)) (st : MatchState) :
  loop (p :: l) st = loop l (match_step ts mtt st p).
Proof. reflexivity. Qed.

Lemma match_step_no_match (st : MatchState) (p : nat * Visit bool) :
  has_match ts mtt p = false → match_step ts mtt st p = st.
Proof.
  unfold has_match, match_step. destruct st as [k col], p as [i P]; simpl.
  by destruct (valid_tertiary_landings ts P mtt) as [|[j T] rest].
Qed.

Lemma match_step_match (k : Z) (col : list (option Z)) (i : nat) (P : Visit bool) :
  has_match ts mtt (i, P) = true →
  ∃ j T rest, valid_tertiary_landings ts P mtt = (j, T) :: rest
    ∧ match_step ts mtt (k, col) (i, P)
      = (k + 1, <[j := Some (k + 1)]> (<[i := Some (k + 1)]> col)).
Proof.
  unfold has_match, match_step; simpl.
  destruct (valid_tertiary_landings ts P mtt) as [|[j T] rest]; [done|].
  intros _. by exists j, T, rest.
Qed.

Lemma loop_counter (l : list (nat * Visit bool)) (k : Z) (col : list (option Z)) :
  fst (loop l (k, col)) = k + matched l.
Proof.
  revert k col. induction l as [|[i P] l IH]; intros k col.
  - simpl. lia.
  - rewrite loop_cons, filter_cons.
    destruct (has_match ts mtt (i, P)) eqn:E.
    + destruct (match_step_match k col i P E) as (j & T & rest & _ & ->).
      rewrite IH. rewrite decide_True by done. simpl length. lia.
    + rewrite match_step_no_match by done.
      rewrite IH. by rewrite decide_False by done.
Qed.

Lemma loop_length (l : list (nat * Visit bool)) (st : MatchState) :
  length (snd (loop l st)) = length (snd st).
Proof.
  revert st. induction l as [|[i P] l IH]; intros [k col]; [done|].
  rewrite loop_cons, IH.
  destruct (has_match ts mtt (i, P)) eqn:E.
  - destruct (match_step_match k col i P E) as (j & T & rest & _ & ->).
    simpl. by rewrite !length_insert.
  - by rewrite match_step_no_match.
Qed.

(** A cell is left alone by the iterations that neither belong to its row
    nor pick its row. *)
Lemma loop_frame (l : list (nat * Visit bool)) (k : Z) (col : list (option Z)) (x : nat) :
  (∀ i P, (i, P) ∈ l → i ≠ x) →
  (∀ i P j T rest, (i, P) ∈ l →
     valid_tertiary_landings ts P mtt = (j, T) :: rest → j ≠ x) →
  snd (loop l (k, col)) !! x = col !! x.
Proof.
  revert k col. induction l as [|[i P] l IH]; intros k col Hrow Hpick; [done|].
  rewrite loop_cons.
  assert (Hrow' : ∀ i P, (i, P) ∈ l → i ≠ x)
    by (intros; eapply Hrow; by apply list_elem_of_further).
  assert (Hpick' : ∀ i P j T rest, (i, P) ∈ l →
     valid_tertiary_landings ts P mtt = (j, T) :: rest → j ≠ x)
    by (intros; eapply Hpick; [by apply list_elem_of_further | done]).
  destruct (has_match ts mtt (i, P)) eqn:E.
  - destruct (match_step_match k col i P E) as (j & T & rest & Hv & ->).
    rewrite IH by done.
    rewrite !list_lookup_insert_ne; [done| |].
    + eapply Hrow. apply list_elem_of_here.
    + eapply Hpick; [apply list_elem_of_here | exact Hv].
  - rewrite match_step_no_match by done. by apply IH.
Qed.

(** Every id in the column was handed out by the counter. *)
Lemma loop_ids_bounded (l : list (nat * Visit bool)) (k : Z) (col : list (option Z)) :
  0 <= k →
  (∀ x id, col !! x = Some (Some id) → 1 <= id <= k) →
  ∀ x id, snd (loop l (k, col)) !! x = Some (Some id) →
          1 <= id <= fst (loop l (k, col)).
Proof.
  revert k col. induction l as [|[i P] l IH]; intros k col Hk Hcol; [exact Hcol|].
  rewrite loop_cons.
  destruct (has_match ts mtt (i, P)) eqn:E.
  - destruct (match_step_match k col i P E) as (j & T & rest & Hv & ->).
    apply IH; [lia|]. intros x id Hx.
    apply list_lookup_insert_Some in Hx as [(_ & [= <-] & _) | [_ Hx]]; [lia|].
    apply list_lookup_insert_Some in Hx as [(_ & [= <-] & _) | [_ Hx]]; [lia|].
    specialize (Hcol _ _ Hx). lia.
  - rewrite match_step_no_match by done. by apply IH.
Qed.

(** *** The final column, row by row *)

(** No landing picked by the loop is a primary row. *)
Lemma pick_not_primary (l : list (nat * Visit bool)) (x : nat) (r : Visit bool) :
  d !! x = Some r → is_primary_hospital r = true →
  ∀ i P j T rest, (i, P) ∈ l →
    valid_tertiary_landings ts P mtt = (j, T) :: rest → j ≠ x.
Proof.
  intros Hx Hp i P j T rest _ Hv ->.
  apply first_valid_tertiary in Hv as (Hj & Ht & _). congruence.
Qed.

(** The id of a primary row: the number of primary landings with a match
    up to and including it, or NaN when it has none. *)
Lemma primary_id (pre post : list (nat * Visit bool)) (i : nat) (P : Visit bool) :
  d_primary d = pre ++ (i, P) :: post →
  transfer_id_col d mtt !! i
  = Some (if has_match ts mtt (i, P) then Some (matched pre + 1) else None).
Proof.
  intros Hsplit.
  assert (Hin : (i, P) ∈ d_primary d)
    by (rewrite Hsplit, elem_of_app, elem_of_cons; auto).
  apply elem_of_d_primary in Hin as [Hi Hp].
  pose proof NoDup_d_primary as Hnd.
  rewrite Hsplit, fmap_app, fmap_cons in Hnd.
  apply NoDup_app in Hnd as (_ & Hpre & Hnd).
  apply NoDup_cons in Hnd as [Hpost _]. simpl in *.
  assert (Hrow_pre : ∀ i' P', (i', P') ∈ pre → i' ≠ i).
  { intros i' P' Hin' ->. apply (Hpre i); [|apply list_elem_of_here].
    apply list_elem_of_fmap. by exists (i, P'). }
  assert (Hrow_post : ∀ i' P', (i', P') ∈ post → i' ≠ i).
  { intros i' P' Hin' ->. apply Hpost.
    apply list_elem_of_fmap. by exists (i, P'). }
  unfold transfer_id_col. rewrite Hsplit, loop_app, loop_cons.
  destruct (loop pre (initial_state d)) as [k col] eqn:Epre.
  assert (Hk : k = matched pre).
  { pose proof (loop_counter pre 0 (replicate (length d) None)) as Hc.
    unfold initial_state in Epre. rewrite Epre in Hc. simpl in Hc. lia. }
  assert (Hcol : col !! i = Some None).
  { pose proof (loop_frame pre 0 (replicate (length d) None) i Hrow_pre
                  (pick_not_primary pre i P Hi Hp)) as Hf.
    unfold initial_state in Epre. rewrite Epre in Hf. simpl in Hf.
    rewrite Hf. apply lookup_replicate_2. by eapply lookup_lt_Some. }
  destruct (has_match ts mtt (i, P)) eqn:E.
  - destruct (match_step_match k col i P E) as (j & T & rest & Hv & ->).
    rewrite (loop_frame post _ _ i Hrow_post (pick_not_primary post i P Hi Hp)).
    assert (j ≠ i)
      by (eapply (pick_not_primary [(i, P)] i P Hi Hp);
          [apply list_elem_of_here | exact Hv]).
    rewrite list_lookup_insert_ne by done.
    rewrite list_lookup_insert_eq by (by eapply lookup_lt_Some).
    by rewrite Hk.
  - rewrite match_step_no_match by done.
    by rewrite (loop_frame post _ _ i Hrow_post (pick_not_primary post i P Hi Hp)).
Qed.

Lemma first_valid_idx_Some (p : nat * Visit bool) (j : nat) :
  first_valid_idx ts mtt p = Some j
  ↔ ∃ T rest, valid_tertiary_landings ts (snd p) mtt = (j, T) :: rest.
Proof.
  unfold first_valid_idx.
  destruct (valid_tertiary_landings ts (snd p) mtt) as [|[j' T'] rest'].
  - split; [done | by intros (? & ? & ?)].
  - split.
    + intros [= ->]. eauto.
    + by intros (T & rest & [= -> _ _]).
Qed.

Lemma first_valid_idx_has_match (p : nat * Visit bool) (j : nat) :
  first_valid_idx ts mtt p = Some j → has_match ts mtt p = true.
Proof.
  unfold first_valid_idx, has_match.
  by destruct (valid_tertiary_landings ts (snd p) mtt) as [|[j' T'] rest'].
Qed.

(** The last element of a list with a given property, if there is one. *)
Lemma last_occurrence {A} (Q : A → Prop) `{∀ x, Decision (Q x)} (l : list A) :
  Forall (fun x => ¬ Q x) l
  ∨ ∃ pre x post, l = pre ++ x :: post ∧ Q x ∧ Forall (fun x => ¬ Q x) post.
Proof.
  induction l as [|a l IH]; [by left|].
  destruct IH as [Hno | (pre & x & post & -> & Hx & Hpost)].
  - destruct (decide (Q a)) as [Ha | Ha].
    + right. by exists [], a, l.
    + left. by constructor.
  - right. by exists (a :: pre), x, post.
Qed.

(** The id of a tertiary row: the id handed out by the last primary
    landing that picked it, or NaN when none did. *)
Lemma tertiary_id_last (pre post : list (nat * Visit bool)) (p : nat * Visit bool)
    (j : nat) :
  d_primary d = pre ++ p :: post →
  first_valid_idx ts mtt p = Some j →
  Forall (fun p' => first_valid_idx ts mtt p' ≠ Some j) post →
  transfer_id_col d mtt !! j = Some (Some (matched pre + 1)).
Proof.
  intros Hsplit Hpick Hpost. destruct p as [i P].
  pose proof Hpick as Hv.
  apply first_valid_idx_Some in Hv as (T & rest & Hv). simpl in Hv.
  pose proof (first_valid_tertiary _ _ _ _ Hv) as (Hj & Ht & _).
  assert (Hrow : ∀ i' P', (i', P') ∈ post → i' ≠ j).
  { intros i' P' Hin ->.
    assert ((j, P') ∈ d_primary d)
      by (rewrite Hsplit, elem_of_app, elem_of_cons; auto).
    apply elem_of_d_primary in H as [Hj' Hp']. congruence. }
  assert (Hpk : ∀ i' P' j' T' rest', (i', P') ∈ post →
            valid_tertiary_landings ts P' mtt = (j', T') :: rest' → j' ≠ j).
  { intros i' P' j' T' rest' Hin Hv' ->.
    rewrite Forall_forall in Hpost. apply (Hpost _ Hin).
    apply first_valid_idx_Some. simpl. eauto. }
  unfold transfer_id_col. rewrite Hsplit, loop_app, loop_cons.
  destruct (loop pre (initial_state d)) as [k col] eqn:Epre.
  assert (Hk : k = matched pre).
  { pose proof (loop_counter pre 0 (replicate (length d) None)) as Hc.
    unfold initial_state in Epre. rewrite Epre in Hc. simpl in Hc. lia. }
  assert (Hlen : length col = length d).
  { pose proof (loop_length pre (initial_state d)) as Hl.
    rewrite Epre in Hl. simpl in Hl. by rewrite length_replicate in Hl. }
  unfold match_step. rewrite Hv.
  rewrite (loop_frame post _ _ j Hrow Hpk).
  rewrite list_lookup_insert_eq; [by rewrite Hk|].
  rewrite length_insert, Hlen. by eapply lookup_lt_Some.
Qed.

Lemma tertiary_id_none (j : nat) (T : Visit bool) :
  d !! j = Some T → is_primary_hospital T = false →
  Forall (fun p' => first_valid_idx ts mtt p' ≠ Some j) (d_primary d) →
  transfer_id_col d mtt !! j = Some None.
Proof.
  intros Hj Ht Hno.
  unfold transfer_id_col, initial_state.
  rewrite loop_frame.
  - apply lookup_replicate_2. by eapply lookup_lt_Some.
  - intros i' P' Hin ->.
    apply elem_of_d_primary in Hin as [Hj' Hp']. congruence.
  - intros i' P' j' T' rest' Hin Hv' ->.
    rewrite Forall_forall in Hno. apply (Hno _ Hin).
    apply first_valid_idx_Some. simpl. eauto.
Qed.

(** Two places of one list are the same place, or one is before the
    other. *)
Lemma split_compare {A} (pre pre' post post' : list A) (x x' : A) :
  pre ++ x :: post = pre' ++ x' :: post' →
  (pre = pre' ∧ x = x' ∧ post = post')
  ∨ (∃ mid, pre' = pre ++ x :: mid)
  ∨ (∃ mid, pre = pre' ++ x' :: mid).
Proof.
  revert pre'. induction pre as [|a pre IH]; intros [|a' pre']; simpl; intros [= Ha Hl].
  - by left.
  - subst. right; left. by exists pre'.
  - subst. right; right. by exists pre.
  - subst a'. destruct (IH _ Hl) as [(-> & -> & ->) | [[mid ->] | [mid ->]]].
    + by left.
    + right; left. by exists mid.
    + right; right. by exists mid.
Qed.

Lemma matched_app_cons (pre mid : list (nat * Visit bool)) (p : nat * Visit bool) :
  has_match ts mtt p = true →
  matched (pre ++ p :: mid) = matched pre + 1 + matched mid.
Proof.
  intros Hm. rewrite filter_app, filter_cons, decide_True by done.
  rewrite length_app. simpl. lia.
Qed.

(** Two primary rows with the same id are the same row. *)
Lemma primary_id_inj (i i' : nat) (P P' : Visit bool) (id : Z) :
  (i, P) ∈ d_primary d → (i', P') ∈ d_primary d →
  transfer_id_col d mtt !! i = Some (Some id) →
  transfer_id_col d mtt !! i' = Some (Some id) →
  i = i' ∧ P = P'.
Proof.
  intros Hin Hin' Hid Hid'.
  apply list_elem_of_split in Hin as (pre & post & Hs).
  apply list_elem_of_split in Hin' as (pre' & post' & Hs').
  rewrite (primary_id _ _ _ _ Hs) in Hid.
  rewrite (primary_id _ _ _ _ Hs') in Hid'.
  destruct (has_match ts mtt (i, P)) eqn:E; [|done].
  destruct (has_match ts mtt (i', P')) eqn:E'; [|done].
  injection Hid as Hid. injection Hid' as Hid'.
  rewrite Hs in Hs'.
  destruct (split_compare _ _ _ _ _ _ Hs')
    as [(_ & [= -> ->] & _) | [[mid ->] | [mid ->]]]; [done | |].
  - rewrite matched_app_cons in Hid' by done. lia.
  - rewrite matched_app_cons in Hid by done. lia.
Qed.

(** A tertiary row with an id was picked by the primary row that has the
    same id. *)
Lemma tertiary_id_picked (j : nat) (T : Visit bool) (id : Z) :
  d !! j = Some T → is_primary_hospital T = false →
  transfer_id_col d mtt !! j = Some (Some id) →
  ∃ i P, (i, P) ∈ d_primary d
         ∧ transfer_id_col d mtt !! i = Some (Some id)
         ∧ first_valid_idx ts mtt (i, P) = Some j.
Proof.
  intros Hj Ht Hid.
  destruct (last_occurrence (fun p => first_valid_idx ts mtt p = Some j) (d_primary d))
    as [Hno | (pre & [i P] & post & Hs & Hpick & Hpost)].
  - rewrite (tertiary_id_none j T Hj Ht Hno) in Hid. done.
  - rewrite (tertiary_id_last _ _ _ _ Hs Hpick Hpost) in Hid.
    injection Hid as <-.
    exists i, P. split; [|split; [|done]].
    + rewrite Hs, elem_of_app, elem_of_cons. auto.
    + rewrite (primary_id _ _ _ _ Hs).
      by rewrite (first_valid_idx_has_match _ _ Hpick).
Qed.

(** *** The returned frame *)

Lemma elem_of_dropna (col : list (option Z)) (i : nat) (r : Visit bool) (k : Z) :
  (i, r, k) ∈ dropna d col ↔ d !! i = Some r ∧ col !! i = Some (Some k).
Proof.
  unfold dropna. rewrite list_elem_of_omap. split.
  - intros ([i' r'] & Hin & Hf). apply elem_of_reset_index in Hin.
    simpl in Hf. destruct (col !! i') as [[k'|]|] eqn:E; simpl in Hf; try done.
    injection Hf as -> -> ->. done.
  - intros [Hi Hc]. exists (i, r). split; [by apply elem_of_reset_index|].
    simpl. by rewrite Hc.
Qed.

Lemma NoDup_omap_labels {A B} (f : nat * A → option (nat * A * B)) (l : list (nat * A)) :
  (∀ x y, f x = Some y → fst (fst y) = fst x) →
  NoDup (fst <$> l) → NoDup ((fun y => fst (fst y)) <$> omap f l).
Proof.
  intros Hf. induction l as [|x l IH]; [constructor|].
  rewrite fmap_cons. intros Hnd. apply NoDup_cons in Hnd as [Hx Hnd].
  cbn [omap list_omap]. destruct (f x) as [y|] eqn:E; [|by apply IH].
  rewrite fmap_cons. apply NoDup_cons. split; [|by apply IH].
  rewrite (Hf _ _ E). intros Hin. apply Hx.
  apply list_elem_of_fmap in Hin as (y' & Hy' & Hin).
  apply list_elem_of_omap in Hin as (x' & Hin & E').
  apply list_elem_of_fmap. exists x'. split; [|done].
  rewrite Hy'. by apply Hf.
Qed.

Lemma NoDup_dropna (col : list (option Z)) : NoDup (dropna d col).
Proof.
  apply (NoDup_fmap_1 (fun y => fst (fst y))).
  apply NoDup_omap_labels; [|apply NoDup_reset_index].
  intros [i r] [[i' r'] k] H. simpl in *.
  destruct (mjoin (col !! i)); by simplify_eq.
Qed.

Lemma elem_of_merge (S R : list (nat * Visit bool * Z)) s r :
  (s, r) ∈ merge_on_transfer_id S R ↔ s ∈ S ∧ r ∈ R ∧ snd r = snd s.
Proof.
  unfold merge_on_transfer_id. rewrite list_elem_of_bind. split.
  - intros (s' & Hin & Hs').
    apply list_elem_of_fmap in Hin as (r' & [= -> ->] & Hin).
    apply (list_elem_of_filter (fun r => snd r = snd s')) in Hin as [Hk Hr].
    done.
  - intros (Hs & Hr & Hk). exists s. split; [|done].
    apply list_elem_of_fmap. exists r. split; [done|].
    by apply (list_elem_of_filter (fun r => snd r = snd s)).
Qed.

Lemma NoDup_merge (S R : list (nat * Visit bool * Z)) :
  NoDup S → NoDup R → NoDup (merge_on_transfer_id S R).
Proof.
  intros HS HR. unfold merge_on_transfer_id. apply NoDup_bind; [| |done].
  - intros s1 s2 y _ _ H1 H2.
    apply list_elem_of_fmap in H1 as (r1 & -> & _).
    apply list_elem_of_fmap in H2 as (r2 & [= -> _] & _). done.
  - intros s _. apply NoDup_fmap_2_strong; [|by apply NoDup_filter].
    by intros r1 r2 _ _ [= ->].
Qed.

Lemma elem_of_merged_rows i P k j T k' :
  ((i, P, k), (j, T, k')) ∈ merged_rows ↔
  d !! i = Some P ∧ is_primary_hospital P = true
  ∧ transfer_id_col d mtt !! i = Some (Some k)
  ∧ d !! j = Some T ∧ is_primary_hospital T = false
  ∧ transfer_id_col d mtt !! j = Some (Some k)
  ∧ k' = k.
Proof.
  unfold find_transfers.merged_rows. cbv zeta. rewrite elem_of_merge.
  rewrite (list_elem_of_filter (fun r => is_primary_hospital (snd (fst r)) = true)).
  rewrite (list_elem_of_filter (fun r => is_primary_hospital (snd (fst r)) = false)).
  rewrite !elem_of_dropna. simpl. split.
  - intros ((? & ? & ?) & (? & ? & ?) & ->). done.
  - intros (? & ? & ? & ? & ? & ? & ->). done.
Qed.

(** A joined pair is a primary landing and the landing it picked. *)
Lemma merged_rows_picked i P k j T k' :
  ((i, P, k), (j, T, k')) ∈ merged_rows →
  (i, P) ∈ d_primary d ∧ first_valid_idx ts mtt (i, P) = Some j.
Proof.
  intros H. apply elem_of_merged_rows in H as (Hi & Hp & Hik & Hj & Ht & Hjk & ->).
  assert (Hin : (i, P) ∈ d_primary d) by by apply elem_of_d_primary.
  split; [done|].
  destruct (tertiary_id_picked j T k Hj Ht Hjk) as (i0 & P0 & Hin0 & Hid0 & Hpick).
  by destruct (primary_id_inj i0 i P0 P k Hin0 Hin Hid0 Hik) as [-> ->].
Qed.

Lemma NoDup_merged_rows : NoDup merged_rows.
Proof.
  unfold find_transfers.merged_rows. cbv zeta.
  apply NoDup_merge; apply NoDup_filter, NoDup_dropna.
Qed.

Lemma merged_rows_same_receiving sr sr' :
  sr ∈ merged_rows → sr' ∈ merged_rows →
  fst (fst (snd sr)) = fst (fst (snd sr')) → sr = sr'.
Proof.
  destruct sr as [[[i P] k] [[j T] k0]], sr' as [[[i' P'] k'] [[j' T'] k0']].
  simpl. intros H H' ->.
  pose proof (merged_rows_picked _ _ _ _ _ _ H) as [Hin _].
  pose proof (merged_rows_picked _ _ _ _ _ _ H') as [Hin' _].
  apply elem_of_merged_rows in H as (Hi & Hp & Hik & Hj & Ht & Hjk & ->).
  apply elem_of_merged_rows in H' as (Hi' & Hp' & Hik' & Hj' & Ht' & Hjk' & ->).
  assert (T = T') by congruence. subst T'.
  assert (k = k') by congruence. subst k'.
  by destruct (primary_id_inj i i' P P' k Hin Hin' Hik Hik') as [-> ->].
Qed.

Lemma merged_rows_same_id sr sr' :
  sr ∈ merged_rows → sr' ∈ merged_rows →
  snd (fst sr) = snd (fst sr') → sr = sr'.
Proof.
  destruct sr as [[[i P] k] [[j T] k0]], sr' as [[[i' P'] k'] [[j' T'] k0']].
  simpl. intros H H' ->.
  pose proof (merged_rows_picked _ _ _ _ _ _ H) as [Hin Hpk].
  pose proof (merged_rows_picked _ _ _ _ _ _ H') as [Hin' Hpk'].
  apply elem_of_merged_rows in H as (Hi & Hp & Hik & Hj & Ht & Hjk & ->).
  apply elem_of_merged_rows in H' as (Hi' & Hp' & Hik' & Hj' & Ht' & Hjk' & ->).
  destruct (primary_id_inj i i' P P' k' Hin Hin' Hik Hik') as [-> ->].
  assert (j = j') by congruence. subst j'.
  assert (T = T') by congruence. by subst T'.
Qed.

Lemma create_transfer_dataframe_sublist dist ro f o :
  create_transfer_dataframe dist d mtt ro f o
  `sublist_of` (fun sr => enrich dist f o (fst sr) (snd sr)) <$> merged_rows.
Proof.
  unfold create_transfer_dataframe. cbv zeta.
  destruct ro; [apply sublist_filter | done].
Qed.

Lemma elem_of_create_transfer_dataframe dist ro f o (t : Transfer) :
  t ∈ create_transfer_dataframe dist d mtt ro f o ↔
  ∃ sr, sr ∈ merged_rows ∧ t = enrich dist f o (fst sr) (snd sr)
        ∧ (ro = true → transit_time_outlier t = false).
Proof.
  unfold create_transfer_dataframe. cbv zeta.
  destruct ro.
  - rewrite (list_elem_of_filter (fun t => transit_time_outlier t = false)).
    rewrite list_elem_of_fmap. split.
    + intros (Ho & sr & -> & Hin). eauto.
    + intros (sr & Hin & -> & Ho). split; [by apply Ho | eauto].
  - rewrite list_elem_of_fmap. split.
    + intros (sr & -> & Hin). exists sr. done.
    + intros (sr & Hin & -> & _). eauto.
Qed.

(** *** Candidates *)

Lemma matches_true (P T : Visit bool) :
  matches P mtt T = true ↔
  aircraft_id T = aircraft_id P
  ∧ ∃ out, UTC_out P = Some out ∧ out <= UTC T <= out + mtt * 3600.
Proof.
  unfold matches. rewrite andb_true_iff, Z.eqb_eq.
  destruct (UTC_out P) as [out|].
  - rewrite andb_true_iff, !Z.leb_le. split.
    + intros (Ha & H1 & H2). eauto.
    + intros (Ha & out' & [= <-] & H). tauto.
  - split; [by intros [_ ?] | by intros (_ & out' & ? & _)].
Qed.

Lemma matches_false (P T : Visit bool) :
  matches P mtt T = false ↔
  ¬ (aircraft_id T = aircraft_id P
     ∧ ∃ out, UTC_out P = Some out ∧ out <= UTC T <= out + mtt * 3600).
Proof.
  rewrite <- matches_true. by destruct (matches P mtt T).
Qed.

Lemma no_valid_tertiary (P : Visit bool) :
  valid_tertiary_landings ts P mtt = []
  ↔ ∀ t, t ∈ ts → matches P mtt (snd t) = false.
Proof.
  unfold valid_tertiary_landings. split.
  - intros H t Ht. destruct (matches P mtt (snd t)) eqn:E; [|done].
    assert (t ∈ filter (fun t => matches P mtt (snd t) = true) ts)
      by by apply (list_elem_of_filter (fun t => matches P mtt (snd t) = true)).
    rewrite H in H0. by apply elem_of_nil in H0.
  - intros H. destruct (filter _ ts) as [|t rest] eqn:E; [done|].
    assert (Hin : t ∈ filter (fun t => matches P mtt (snd t) = true) ts)
      by (rewrite E; apply list_elem_of_here).
    apply (list_elem_of_filter (fun t => matches P mtt (snd t) = true)) in Hin
      as [Hm Hin].
    rewrite (H t Hin) in Hm. done.
Qed.

(** A joined pair satisfies the mask of the loop. *)
Lemma merged_rows_matches i P k j T k' :
  ((i, P, k), (j, T, k')) ∈ merged_rows → matches P mtt T = true.
Proof.
  intros Hin.
  pose proof (merged_rows_picked _ _ _ _ _ _ Hin) as [_ Hpick].
  apply elem_of_merged_rows in Hin as (_ & _ & _ & Hj & _).
  apply first_valid_idx_Some in Hpick as (T' & rest & Hv). simpl in Hv.
  apply first_valid_tertiary in Hv as (Hj' & _ & Hm).
  congruence.
Qed.

(** C2. In the returned frame no tertiary row is the receiving row of
    two transfers, and no transfer id is on two rows.  The receiving row of
    a transfer is a tertiary row of the input, and the receiving visits of
    the frame use every tertiary visit of the input at most once. *)
Theorem transfers_unique (dist : Geometry → Geometry → Q) (ro : bool) (f o : Q) :
  let out := create_transfer_dataframe dist d mtt ro f o in
  NoDup (receiving_row <$> out)
  ∧ NoDup (transfer_id <$> out)
  ∧ Forall (fun t => d !! receiving_row t = Some (receiving t)
                     ∧ is_primary_hospital (receiving t) = false) out
  ∧ receiving <$> out ⊆+ snd <$> d_tertiary d.
Proof.
  intros out.
  pose proof (create_transfer_dataframe_sublist dist ro f o) as Hsub.
  fold out in Hsub.
  assert (Hrows : NoDup (receiving_row <$> out)).
  { eapply sublist_NoDup; [|apply fmap_sublist, Hsub].
    rewrite <- list_fmap_compose.
    apply NoDup_fmap_2_strong; [|apply NoDup_merged_rows].
    intros sr sr' Hin Hin' Heq. simpl in Heq.
    by apply merged_rows_same_receiving. }
  assert (Htert : Forall (fun t => d !! receiving_row t = Some (receiving t)
                     ∧ is_primary_hospital (receiving t) = false) out).
  { apply Forall_forall. intros t Ht.
    apply elem_of_create_transfer_dataframe in Ht
      as ([[[i P] k] [[j T] k']] & Hin & -> & _).
    apply elem_of_merged_rows in Hin as (_ & _ & _ & Hj & Ht & _). done. }
  split; [exact Hrows|]. split; [|split; [exact Htert|]].
  - eapply sublist_NoDup; [|apply fmap_sublist, Hsub].
    rewrite <- list_fmap_compose.
    apply NoDup_fmap_2_strong; [|apply NoDup_merged_rows].
    intros sr sr' Hin Hin' Heq. simpl in Heq.
    by apply merged_rows_same_id.
  - assert (Hpairs : (fun t => (receiving_row t, receiving t)) <$> out ⊆+ d_tertiary d).
    { apply NoDup_submseteq.
      - apply (NoDup_fmap_1 fst). by rewrite <- list_fmap_compose.
      - intros [j T] Hin.
        apply list_elem_of_fmap in Hin as (t & [= -> ->] & Hin).
        rewrite Forall_forall in Htert.
        by apply elem_of_d_tertiary, Htert. }
    apply (fmap_submseteq snd) in Hpairs.
    by rewrite <- list_fmap_compose in Hpairs.
Qed.

(** C3. Every returned transfer goes from a primary landing to a
    non-primary landing of the same aircraft, entered no earlier than the
    primary landing was left and no later than [max_transit_time] hours
    after that. *)
Theorem transfers_within_window (dist : Geometry → Geometry → Q) (ro : bool) (f o : Q) :
  Forall (fun t =>
            is_primary_hospital (sending t) = true
            ∧ is_primary_hospital (receiving t) = false
            ∧ aircraft_id (receiving t) = aircraft_id (sending t)
            ∧ ∃ out, UTC_out (sending t) = Some out
                     ∧ out <= UTC (receiving t)
                     ∧ UTC (receiving t) <= out + mtt * 3600)
         (create_transfer_dataframe dist d mtt ro f o).
Proof.
  apply Forall_forall. intros t Ht.
  apply elem_of_create_transfer_dataframe in Ht
    as ([[[i P] k] [[j T] k']] & Hin & -> & _).
  pose proof (merged_rows_matches _ _ _ _ _ _ Hin) as Hm.
  apply elem_of_merged_rows in Hin as (Hi & Hp & _ & Hj & Ht & _).
  apply matches_true in Hm as (Ha & out & Hout & H1 & H2).
  simpl. repeat split; try done. eauto.
Qed.

(** C1. The loop takes the primary landings in the order of the frame.
    When the landing [P] has a candidate (a tertiary row of the same
    aircraft entered between the exit of [P] and [max_transit_time] hours
    later), the iteration of [P] picks the first candidate in the order of
    [d_tertiary], raises the counter by one and writes the new id, which no
    row carries yet, on the row of [P] and on the picked row; the id is one
    more than the number of earlier primary landings that had a candidate,
    so the ids start at 1 and grow strictly, and the row of [P] carries it
    when the loop has ended.  When [P] has no candidate the iteration
    changes nothing, the row of [P] keeps NaN and [P] is the sending row of
    no returned transfer; the functions are total, nothing is raised. *)
Theorem matcher_pairs_first_candidate
    (pre post : list (nat * Visit bool)) (i : nat) (P : Visit bool) :
  d_primary d = pre ++ (i, P) :: post →
  let candidate (t : nat * Visit bool) :=
    aircraft_id (snd t) = aircraft_id P
    ∧ ∃ out, UTC_out P = Some out
             ∧ out <= UTC (snd t) <= out + mtt * 3600 in
  let before := match_loop d mtt pre (initial_state d) in
  let after := match_step (d_tertiary d) mtt before (i, P) in
  ((∃ t, t ∈ d_tertiary d ∧ candidate t) →
     ∃ j T l1 l2,
       d_tertiary d = l1 ++ (j, T) :: l2
       ∧ candidate (j, T)
       ∧ Forall (fun t => ¬ candidate t) l1
       ∧ fst after = fst before + 1
       ∧ fst after = matched pre + 1
       ∧ 1 <= fst after
       ∧ (∀ x, snd before !! x ≠ Some (Some (fst after)))
       ∧ (∀ i0 P0 id0, (i0, P0) ∈ pre →
            transfer_id_col d mtt !! i0 = Some (Some id0) → id0 < fst after)
       ∧ snd after !! i = Some (Some (fst after))
       ∧ snd after !! j = Some (Some (fst after))
       ∧ transfer_id_col d mtt !! i = Some (Some (fst after)))
  ∧ ((¬ ∃ t, t ∈ d_tertiary d ∧ candidate t) →
       after = before
       ∧ transfer_id_col d mtt !! i = Some None
       ∧ ∀ dist ro f o,
           Forall (fun t => sending_row t ≠ i)
                  (create_transfer_dataframe dist d mtt ro f o)).
Proof.
  intros Hsplit candidate before after.
  assert (Hin : (i, P) ∈ d_primary d)
    by (rewrite Hsplit, elem_of_app, elem_of_cons; auto).
  apply elem_of_d_primary in Hin as [Hi Hp].
  assert (Hcand : ∀ t, candidate t ↔ matches P mtt (snd t) = true)
    by (intros t; symmetry; apply matches_true).
  destruct before as [k col] eqn:Ebefore.
  assert (Hk : k = matched pre).
  { pose proof (loop_counter pre 0 (replicate (length d) None)) as Hc.
    unfold before, initial_state in Ebefore. rewrite Ebefore in Hc.
    simpl in Hc. lia. }
  assert (Hlen : length col = length d).
  { pose proof (loop_length pre (initial_state d)) as Hl.
    unfold before in Ebefore. rewrite Ebefore in Hl. simpl in Hl.
    by rewrite length_replicate in Hl. }
  assert (Hbound : ∀ x id, col !! x = Some (Some id) → 1 <= id <= k).
  { pose proof (loop_ids_bounded pre 0 (replicate (length d) None)) as Hb.
    unfold before, initial_state in Ebefore. rewrite Ebefore in Hb.
    apply Hb; [lia|]. intros x id Hx.
    apply lookup_replicate_1 in Hx as [? _]. done. }
  split.
  - intros (t & Ht & Hc).
    destruct (valid_tertiary_landings ts P mtt) as [|[j T] rest] eqn:Ev.
    { exfalso. apply Hcand in Hc.
      rewrite (proj1 (no_valid_tertiary P) Ev t Ht) in Hc. done. }
    destruct (first_valid_earliest _ _ _ Ev) as (l1 & l2 & Hts & Hl1).
    pose proof (first_valid_tertiary _ _ _ _ Ev) as (Hj & Ht' & Hm).
    assert (Hafter : after = (k + 1, <[j := Some (k + 1)]> (<[i := Some (k + 1)]> col)))
      by (unfold after, match_step; by rewrite Ev).
    assert (Hji : j ≠ i) by congruence.
    exists j, T, l1, l2. rewrite Hafter. simpl fst. simpl snd.
    split; [done|]. split; [by apply Hcand|].
    split.
    { eapply Forall_impl; [exact Hl1|]. intros t' Hf Hc'.
      apply Hcand in Hc'. simpl in Hf. congruence. }
    split; [done|]. split; [lia|]. split; [lia|].
    split.
    { intros x Hx. specialize (Hbound _ _ Hx). lia. }
    split.
    { intros i0 P0 id0 Hin0 Hid0.
      apply list_elem_of_split in Hin0 as (a & b & ->).
      rewrite <- app_assoc in Hsplit. simpl in Hsplit.
      rewrite (primary_id _ _ _ _ Hsplit) in Hid0.
      destruct (has_match ts mtt (i0, P0)) eqn:E0; [|done].
      injection Hid0 as <-. rewrite Hk, matched_app_cons by done. lia. }
    split.
    { rewrite list_lookup_insert_ne by done.
      apply list_lookup_insert_eq. rewrite Hlen. by eapply lookup_lt_Some. }
    split.
    { apply list_lookup_insert_eq. rewrite length_insert, Hlen.
      by eapply lookup_lt_Some. }
    rewrite (primary_id _ _ _ _ Hsplit).
    unfold has_match. simpl. rewrite Ev. by rewrite Hk.
  - intros Hno.
    assert (Ev : valid_tertiary_landings ts P mtt = []).
    { apply no_valid_tertiary. intros t Ht.
      destruct (matches P mtt (snd t)) eqn:E; [|done].
      exfalso. apply Hno. exists t. split; [done|]. by apply Hcand. }
    assert (Hnone : transfer_id_col d mtt !! i = Some None).
    { rewrite (primary_id _ _ _ _ Hsplit).
      unfold has_match. simpl. by rewrite Ev. }
    split; [|split; [exact Hnone|]].
    + unfold after, match_step. by rewrite Ev.
    + intros dist ro f o. apply Forall_forall. intros tr Htr Hrow.
      apply elem_of_create_transfer_dataframe in Htr
        as ([[[i' P'] k'] [[j' T'] k'']] & Hm & -> & _).
      simpl in Hrow. subst i'.
      apply elem_of_merged_rows in Hm as (_ & _ & Hid & _). congruence.
Qed.

(** The pair made for [P] is in the returned frame exactly when no later
    primary landing picks the same row: a later pick overwrites the id of
    the tertiary row, and the join then finds no partner for [P]. *)
Lemma transfer_kept_iff (dist : Geometry → Geometry → Q) (f o : Q)
    (pre post : list (nat * Visit bool)) (i : nat) (P : Visit bool) (j : nat) :
  d_primary d = pre ++ (i, P) :: post →
  first_valid_idx ts mtt (i, P) = Some j →
  (∃ t, t ∈ create_transfer_dataframe dist d mtt false f o
        ∧ sending_row t = i ∧ receiving_row t = j)
  ↔ Forall (fun p' => first_valid_idx ts mtt p' ≠ Some j) post.
Proof.
  intros Hsplit Hpick.
  assert (Hin : (i, P) ∈ d_primary d)
    by (rewrite Hsplit, elem_of_app, elem_of_cons; auto).
  apply elem_of_d_primary in Hin as [Hi Hp].
  pose proof (primary_id _ _ _ _ Hsplit) as Hid.
  rewrite (first_valid_idx_has_match _ _ Hpick) in Hid.
  pose proof Hpick as Hv.
  apply first_valid_idx_Some in Hv as (T & rest & Hv). simpl in Hv.
  pose proof (first_valid_tertiary _ _ _ _ Hv) as (Hj & Ht & _).
  split.
  - intros (t & Hin & Hs & Hr).
    apply elem_of_create_transfer_dataframe in Hin
      as ([[[i' P'] k] [[j' T'] k']] & Hm & -> & _).
    simpl in Hs, Hr. subst i' j'.
    apply elem_of_merged_rows in Hm as (_ & _ & Hik & _ & _ & Hjk & _).
    assert (k = matched pre + 1) by congruence. subst k.
    destruct (last_occurrence (fun p' => first_valid_idx ts mtt p' = Some j) post)
      as [Hno | (a & p2 & b & -> & Hp2 & Hb)]; [done|].
    exfalso.
    assert (Hs2 : d_primary d = (pre ++ (i, P) :: a) ++ p2 :: b)
      by (rewrite Hsplit, <- app_assoc; reflexivity).
    rewrite (tertiary_id_last _ _ _ _ Hs2 Hp2 Hb) in Hjk.
    injection Hjk as Hjk.
    rewrite matched_app_cons in Hjk
      by (by eapply first_valid_idx_has_match). lia.
  - intros Hpost.
    pose proof (tertiary_id_last _ _ _ _ Hsplit Hpick Hpost) as Hjk.
    exists (enrich dist f o (i, P, matched pre + 1) (j, T, matched pre + 1)).
    split; [|done].
    apply elem_of_create_transfer_dataframe.
    eexists (_, _). split; [|split; [reflexivity | done]].
    by apply elem_of_merged_rows.
Qed.

End Matcher.

(** The loop on [shared_tertiary]: the second primary landing gets the
    id 2. *)
Lemma matcher_pairs_first_candidate_witness :
  find_transfers.transfer_id_col find_transfers.shared_tertiary 3 !! 1%nat
  = Some (Some 2).
Proof.
  destruct (matcher_pairs_first_candidate find_transfers.shared_tertiary 3
              [(0%nat, find_transfers.landing 1 35100 36000 true)] []
              1%nat (find_transfers.landing 1 37200 37800 true) eq_refl)
    as [H _].
  destruct H as (j & T & l1 & l2 & _ & _ & _ & _ & Hid & _ & _ & _ & _ & _ & Hfinal).
  - exists (2%nat, find_transfers.landing 1 38700 39600 false). split.
    + apply list_elem_of_In. vm_compute. left; reflexivity.
    + split; [reflexivity|]. exists 37800. split; [reflexivity | simpl; lia].
  - rewrite Hfinal, Hid. reflexivity.
Defined.

(** Both primary landings of [shared_tertiary] pick the tertiary landing;
    the returned frame holds the second pair alone, under the id 2. *)
Example shared_tertiary_output :
  find_transfers.transfer_id_col find_transfers.shared_tertiary 3
  = [Some 1; Some 2; Some 2]
  ∧ map (fun t => (find_transfers.transfer_id t, find_transfers.sending_row t,
                   find_transfers.receiving_row t))
        (find_transfers.create_transfer_dataframe find_transfers.fifty_km
           find_transfers.shared_tertiary 3 false 2 5)
    = [(2, 1%nat, 2%nat)].
Proof. split; reflexivity. Qed.

(** The spec's scenario: exit at 10:00, entry at 10:45, one transfer of 45
    minutes; with the entry at 14:00 there is none. *)
Example one_transfer_output :
  map (fun t => (find_transfers.transfer_id t, find_transfers.transit_time t))
      (find_transfers.create_transfer_dataframe find_transfers.fifty_km
         find_transfers.one_transfer 3 false 2 5)
  = [(1, Some (inject_Z 2700 / 60)%Q)]
  ∧ find_transfers.create_transfer_dataframe find_transfers.fifty_km
      [ find_transfers.landing 1 35100 36000 true;
        find_transfers.landing 1 50400 51000 false ] 3 false 2 5 = [].
Proof. split; reflexivity. Qed.

(** ** Transfer enrichment *)

Section Enrichment.
Import find_transfers.

(** C9. On every returned transfer the expected transit time is the
    distance in km divided by 250 and multiplied by 60, the transit time is
    the time from the exit of the sending landing to the entry of the
    receiving one in minutes, and the outlier flag is set exactly when the
    transit time is above the expected time times [outlier_factor] plus
    [outlier_offset].  With 50 km, 40 minutes and the defaults 2 and 5 the
    expected time is 12 minutes and the flag is set. *)
Theorem transit_outlier_flag :
  (∀ (dist : Geometry → Geometry → Q) (d : list (Visit bool)) (mtt : Z)
     (ro : bool) (f o : Q),
     Forall (fun t =>
               estimated_distance t
               = (dist (geometry (sending t)) (geometry (receiving t)) / 1000)%Q
               ∧ expected_transit_time t = (estimated_distance t / 250 * 60)%Q
               ∧ (∃ out, UTC_out (sending t) = Some out
                    ∧ transit_time t
                      = Some (inject_Z (UTC (receiving t) - out) / 60)%Q)
               ∧ (transit_time_outlier t = true
                  ↔ ∃ a, transit_time t = Some a
                         ∧ (expected_transit_time t * f + o < a)%Q))
            (create_transfer_dataframe dist d mtt ro f o))
  ∧ (∃ t, create_transfer_dataframe fifty_km slow_transfer 3 false 2 5 = [t]
          ∧ (estimated_distance t == 50)%Q
          ∧ (expected_transit_time t == 12)%Q
          ∧ (∃ a, transit_time t = Some a ∧ (a == 40)%Q)
          ∧ (expected_transit_time t * 2 + 5 == 29)%Q
          ∧ transit_time_outlier t = true).
Proof.
  split.
  - intros dist d mtt ro f o. apply Forall_forall. intros t Ht.
    apply elem_of_create_transfer_dataframe in Ht
      as ([[[i P] k] [[j T] k']] & Hin & -> & _).
    apply merged_rows_matches, matches_true in Hin as (_ & out & Hout & _).
    simpl in *. split; [done|]. split; [done|].
    rewrite Hout. split; [eauto|].
    rewrite Qgtb_true. split.
    + intros H. eauto.
    + by intros (a & [= <-] & H).
  - eexists. split; [reflexivity|]. simpl.
    repeat split; try reflexivity.
    eexists. split; reflexivity.
Qed.

End Enrichment.

(** ** Further properties of the returned transfers *)

Section Transfers.
Import find_transfers.

Lemma merged_rows_same_sending (d : list (Visit bool)) (mtt : Z) sr sr' :
  sr ∈ merged_rows d mtt → sr' ∈ merged_rows d mtt →
  fst (fst (fst sr)) = fst (fst (fst sr')) → sr = sr'.
Proof.
  intros H H' Hrow. apply (merged_rows_same_id d mtt); [done | done |].
  destruct sr as [[[i P] k] [[j T] k0]], sr' as [[[i' P'] k'] [[j' T'] k0']].
  simpl in *. subst i'.
  apply elem_of_merged_rows in H as (_ & _ & Hik & _).
  apply elem_of_merged_rows in H' as (_ & _ & Hik' & _).
  congruence.
Qed.

(** Each primary landing is the sending visit of at most one returned
    transfer, and only a landing that had a candidate is one.  So there are
    no more transfers than primary landings with a candidate, and no more
    than tertiary landings. *)
Theorem sending_visits_unique (dist : Geometry → Geometry → Q)
    (d : list (Visit bool)) (mtt : Z) (ro : bool) (f o : Q) :
  let out := create_transfer_dataframe dist d mtt ro f o in
  NoDup (sending_row <$> out)
  ∧ (fun t => (sending_row t, sending t)) <$> out
    ⊆+ filter (fun p => has_match (d_tertiary d) mtt p = true) (d_primary d)
  ∧ (length out
     ≤ length (filter (fun p => has_match (d_tertiary d) mtt p = true) (d_primary d)))%nat
  ∧ (length out ≤ length (d_tertiary d))%nat.
Proof.
  intros out.
  pose proof (create_transfer_dataframe_sublist d mtt dist ro f o) as Hsub.
  fold out in Hsub.
  assert (Hrows : NoDup (sending_row <$> out)).
  { eapply sublist_NoDup; [|apply fmap_sublist, Hsub].
    rewrite <- list_fmap_compose.
    apply NoDup_fmap_2_strong; [|apply NoDup_merged_rows].
    intros sr sr' Hin Hin' Heq. simpl in Heq.
    by apply (merged_rows_same_sending d mtt). }
  assert (Hpairs : (fun t => (sending_row t, sending t)) <$> out
    ⊆+ filter (fun p => has_match (d_tertiary d) mtt p = true) (d_primary d)).
  { apply NoDup_submseteq.
    - apply (NoDup_fmap_1 fst). by rewrite <- list_fmap_compose.
    - intros [i P] Hin.
      apply list_elem_of_fmap in Hin as (t & [= -> ->] & Hin).
      apply elem_of_create_transfer_dataframe in Hin
        as ([[[i P] k] [[j T] k']] & Hm & -> & _). simpl.
      apply merged_rows_picked in Hm as [Hp Hpick].
      apply (list_elem_of_filter (fun p => has_match (d_tertiary d) mtt p = true)).
      split; [|done]. by eapply first_valid_idx_has_match. }
  assert (Hrecv : (fun t => (receiving_row t, receiving t)) <$> out ⊆+ d_tertiary d).
  { apply NoDup_submseteq.
    - apply (NoDup_fmap_1 fst). rewrite <- list_fmap_compose.
      eapply sublist_NoDup; [|apply fmap_sublist, Hsub].
      rewrite <- list_fmap_compose.
      apply NoDup_fmap_2_strong; [|apply NoDup_merged_rows].
      intros sr sr' Hin Hin' Heq. simpl in Heq.
      by apply (merged_rows_same_receiving d mtt).
    - intros [j T] Hin.
      apply list_elem_of_fmap in Hin as (t & [= -> ->] & Hin).
      apply elem_of_create_transfer_dataframe in Hin
        as ([[[i P] k] [[j T] k']] & Hm & -> & _). simpl.
      apply elem_of_merged_rows in Hm as (_ & _ & _ & Hj & Ht & _).
      by apply elem_of_d_tertiary. }
  split; [done|]. split; [done|]. split.
  - apply submseteq_length in Hpairs. by rewrite length_fmap in Hpairs.
  - apply submseteq_length in Hrecv. by rewrite length_fmap in Hrecv.
Qed.

(** On [shared_tertiary] the second primary landing keeps its pair: no
    primary landing after it picks the tertiary row. *)
Lemma transfer_kept_iff_witness :
  ∃ t, t ∈ create_transfer_dataframe fifty_km shared_tertiary 3 false 2 5
       ∧ sending_row t = 1%nat ∧ receiving_row t = 2%nat.
Proof.
  apply (transfer_kept_iff shared_tertiary 3 fifty_km 2 5
           [(0%nat, landing 1 35100 36000 true)] []
           1%nat (landing 1 37200 37800 true) 2%nat);
    [reflexivity | reflexivity | constructor].
Defined.

(** The transit time of a returned transfer is defined, not negative and
    at most [max_transit_time] hours. *)
Theorem transit_time_bounds (dist : Geometry → Geometry → Q)
    (d : list (Visit bool)) (mtt : Z) (ro : bool) (f o : Q) :
  Forall (fun t => ∃ a, transit_time t = Some a
                        ∧ (0 <= a)%Q ∧ (a <= inject_Z mtt * 60)%Q)
         (create_transfer_dataframe dist d mtt ro f o).
Proof.
  apply Forall_forall. intros t Ht.
  apply elem_of_create_transfer_dataframe in Ht
    as ([[[i P] k] [[j T] k']] & Hin & -> & _).
  apply merged_rows_matches, matches_true in Hin as (_ & out & Hout & H1 & H2).
  simpl. rewrite Hout. eexists. split; [reflexivity|].
  unfold Qle, Qdiv, Qmult, Qinv, inject_Z. simpl. lia.
Qed.

(** No transfer is returned when the window is negative, when no landing
    is at a primary hospital or when none is at another hospital. *)
Theorem no_transfer_without_window_or_landings (dist : Geometry → Geometry → Q)
    (d : list (Visit bool)) (mtt : Z) (ro : bool) (f o : Q) :
  mtt < 0 ∨ d_primary d = [] ∨ d_tertiary d = [] →
  create_transfer_dataframe dist d mtt ro f o = [].
Proof.
  intros Hcase.
  destruct (create_transfer_dataframe dist d mtt ro f o) as [|t rest] eqn:E;
    [done|].
  exfalso.
  assert (Ht : t ∈ create_transfer_dataframe dist d mtt ro f o)
    by (rewrite E; apply list_elem_of_here).
  apply elem_of_create_transfer_dataframe in Ht
    as ([[[i P] k] [[j T] k']] & Hin & _).
  pose proof (merged_rows_matches _ _ _ _ _ _ _ _ Hin) as Hm.
  pose proof (merged_rows_picked _ _ _ _ _ _ _ _ Hin) as [Hp _].
  apply elem_of_merged_rows in Hin as (_ & _ & _ & Hj & Ht & _).
  destruct Hcase as [Hneg | [Hnop | Hnot]].
  - apply matches_true in Hm as (_ & out & _ & H1 & H2). lia.
  - rewrite Hnop in Hp. by apply elem_of_nil in Hp.
  - assert (Hin : (j, T) ∈ d_tertiary d) by by apply elem_of_d_tertiary.
    rewrite Hnot in Hin. by apply elem_of_nil in Hin.
Qed.

Lemma no_transfer_without_window_or_landings_witness :
  create_transfer_dataframe fifty_km one_transfer (-1) false 2 5 = [].
Proof.
  apply no_transfer_without_window_or_landings. left. lia.
Defined.

(** *** Order of the returned frame *)

Lemma StronglySorted_sublist {A} (R : relation A) (l1 l2 : list A) :
  l1 `sublist_of` l2 → StronglySorted R l2 → StronglySorted R l1.
Proof.
  induction 1 as [|x l1 l2 Hsub IH|x l1 l2 Hsub IH]; [done| |].
  - rewrite !StronglySorted_cons. intros [Hall Hs]. split; [|by apply IH].
    rewrite Forall_forall in *. intros y Hy. apply Hall.
    by eapply elem_of_sublist.
  - rewrite StronglySorted_cons. intros [_ Hs]. by apply IH.
Qed.

(** The ids of the primary rows, read down the frame, grow strictly and
    count the landings with a candidate. *)
Lemma primary_ids_sorted (d : list (Visit bool)) (mtt : Z)
    (pre l : list (nat * Visit bool)) :
  d_primary d = pre ++ l →
  let ids := omap (fun p => mjoin (transfer_id_col d mtt !! fst p)) l in
  let m l := Z.of_nat (length (filter (fun p => has_match (d_tertiary d) mtt p = true) l)) in
  StronglySorted Z.lt ids ∧ Forall (fun k => m pre < k <= m pre + m l) ids.
Proof.
  revert pre. induction l as [|[i P] l IH]; intros pre Hsplit ids m.
  - split; constructor.
  - assert (Hsplit' : d_primary d = (pre ++ [(i, P)]) ++ l)
      by (by rewrite <- app_assoc).
    destruct (IH _ Hsplit') as [Hs Hb].
    pose proof (primary_id d mtt _ _ _ _ Hsplit) as Hid.
    unfold ids. cbn [omap list_omap]. simpl fst. rewrite Hid. simpl.
    unfold m in *. rewrite filter_app, length_app in Hb.
    rewrite filter_cons.
    destruct (has_match (d_tertiary d) mtt (i, P)) eqn:E.
    + rewrite filter_cons, decide_True in Hb by done.
      rewrite decide_True by done. simpl in *.
 split.
      * apply StronglySorted_cons. split; [|done].
        eapply Forall_impl; [exact Hb|]. intros k0; simpl; lia.
      * constructor; [lia|].
        eapply Forall_impl; [exact Hb|]. intros k0; simpl; lia.
    + rewrite filter_cons, decide_False in Hb by congruence.
      rewrite decide_False by congruence. simpl in *. split; [exact Hs|].
      rewrite Nat.add_0_r in Hb. exact Hb.
Qed.

Lemma sending_ids (col : list (option Z)) (l : list (nat * Visit bool)) :
  snd <$> filter (fun r : nat * Visit bool * Z =>
                    is_primary_hospital (snd (fst r)) = true)
            (omap (fun r => match mjoin (col !! fst r) with
                            | Some k => Some (fst r, snd r, k)
                            | None => None
                            end) l)
  = omap (fun p => mjoin (col !! fst p))
         (filter (fun r => is_primary_hospital (snd r) = true) l).
Proof.
  induction l as [|[i r] l IH]; [done|].
  rewrite (filter_cons _ (i, r) l). cbn [omap list_omap fst snd].
  destruct (mjoin (col !! i)) as [k|] eqn:E.
  - rewrite filter_cons. cbn [fst snd].
    destruct (decide (is_primary_hospital r = true)) as [Hp|Hp].
    + cbn [omap list_omap fst snd]. rewrite E, fmap_cons. cbn [snd].
      f_equal. exact IH.
    + exact IH.
  - destruct (decide (is_primary_hospital r = true)) as [Hp|Hp]; [|exact IH].
    cbn [omap list_omap fst snd]. rewrite E. exact IH.
Qed.

Lemma length_le_1_of_all_equal {A} (l : list A) :
  NoDup l → (∀ x y, x ∈ l → y ∈ l → x = y) → (length l ≤ 1)%nat.
Proof.
  destruct l as [|a [|b l]]; simpl; [lia | lia |].
  intros Hnd Heq. exfalso.
  apply NoDup_cons in Hnd as [Ha _]. apply Ha.
  rewrite (Heq a b); [apply list_elem_of_here | apply list_elem_of_here |].
  apply list_elem_of_further, list_elem_of_here.
Qed.

Lemma merge_ids_sublist (S R : list (nat * Visit bool * Z)) :
  (∀ s, s ∈ S → (length (filter (fun r => snd r = snd s) R) ≤ 1)%nat) →
  (fun sr : (nat * Visit bool * Z) * (nat * Visit bool * Z) => snd (fst sr))
    <$> merge_on_transfer_id S R
  `sublist_of` snd <$> S.
Proof.
  unfold merge_on_transfer_id. induction S as [|s S IH]; intros Hlen; [done|].
  rewrite bind_cons, fmap_app, fmap_cons.
  change (snd s :: (snd <$> S)) with ([snd s] ++ (snd <$> S)).
  apply sublist_app.
  - rewrite <- list_fmap_compose.
    specialize (Hlen s (list_elem_of_here _ _)).
    destruct (filter (fun r => snd r = snd s) R) as [|r [|r' rest]];
      simpl in *; [apply sublist_nil_l | done | lia].
  - apply IH. intros s' Hs'. apply Hlen. by apply list_elem_of_further.
Qed.

(** Two tertiary rows with the same id are the same row. *)
Lemma tertiary_id_inj (d : list (Visit bool)) (mtt : Z) (j j' : nat)
    (T T' : Visit bool) (id : Z) :
  d !! j = Some T → is_primary_hospital T = false →
  d !! j' = Some T' → is_primary_hospital T' = false →
  transfer_id_col d mtt !! j = Some (Some id) →
  transfer_id_col d mtt !! j' = Some (Some id) →
  j = j' ∧ T = T'.
Proof.
  intros Hj Ht Hj' Ht' Hid Hid'.
  destruct (tertiary_id_picked d mtt j T id Hj Ht Hid) as (i & P & Hin & Hi & Hpk).
  destruct (tertiary_id_picked d mtt j' T' id Hj' Ht' Hid') as (i' & P' & Hin' & Hi' & Hpk').
  destruct (primary_id_inj d mtt i i' P P' id Hin Hin' Hi Hi') as [-> ->].
  assert (j = j') by congruence. subst j'. split; [done | congruence].
Qed.

(** The returned frame lists the transfers by growing transfer id, and
    every id lies between 1 and the number of primary landings that had a
    candidate. *)
Theorem transfer_ids_increasing (dist : Geometry → Geometry → Q)
    (d : list (Visit bool)) (mtt : Z) (ro : bool) (f o : Q) :
  let out := create_transfer_dataframe dist d mtt ro f o in
  StronglySorted Z.lt (transfer_id <$> out)
  ∧ Forall (fun t =>
              1 <= transfer_id t
              <= Z.of_nat (length (filter (fun p => has_match (d_tertiary d) mtt p = true)
                                     (d_primary d))))
           out.
Proof.
  intros out.
  pose proof (primary_ids_sorted d mtt [] (d_primary d) eq_refl) as [Hs Hb].
  simpl in Hb.
  assert (Hsub : transfer_id <$> out
                 `sublist_of` omap (fun p => mjoin (transfer_id_col d mtt !! fst p))
                                   (d_primary d)).
  { etrans; [apply fmap_sublist, create_transfer_dataframe_sublist|].
    rewrite <- list_fmap_compose.
    unfold d_primary. rewrite <- sending_ids.
    unfold merged_rows. cbv zeta.
    apply (merge_ids_sublist _ _). intros s Hs'.
    apply length_le_1_of_all_equal.
    - apply NoDup_filter, NoDup_filter, NoDup_dropna.
    - intros [[j T] k] [[j' T'] k'] Hx Hy.
      apply (list_elem_of_filter (fun r => snd r = snd s)) in Hx as [Hk Hx].
      apply (list_elem_of_filter (fun r => snd r = snd s)) in Hy as [Hk' Hy].
      apply (list_elem_of_filter
               (fun r => is_primary_hospital (snd (fst r)) = false)) in Hx as [Ht Hx].
      apply (list_elem_of_filter
               (fun r => is_primary_hospital (snd (fst r)) = false)) in Hy as [Ht' Hy].
      apply elem_of_dropna in Hx as [Hj Hid].
      apply elem_of_dropna in Hy as [Hj' Hid'].
      simpl in *. subst k k'.
      by destruct (tertiary_id_inj d mtt j j' T T' _ Hj Ht Hj' Ht' Hid Hid')
        as [-> ->]. }
  split.
  - by eapply StronglySorted_sublist.
  - apply Forall_forall. intros t Ht.
    rewrite Forall_forall in Hb. 
    assert (Hin : transfer_id t ∈ transfer_id <$> out)
      by (apply list_elem_of_fmap; eauto).
    specialize (Hb _ (elem_of_sublist _ _ _ Hin Hsub)). simpl in Hb. lia.
Qed.

End Transfers.

(** ** Further properties of the zone visits *)

Section Visits.
Import find_transfers.

Lemma add_UTC_out_in_zone (events : list Position.t) (v : Visit (option Q)) :
  v ∈ add_UTC_out events →
  in_helipad_zone v = negb (isnan (zone_name v)).
Proof.
  induction events as [|p rest IH]; simpl.
  - intros H. by apply elem_of_nil in H.
  - intros H. apply elem_of_cons in H as [-> | H]; [reflexivity | by apply IH].
Qed.

Lemma dt_seconds_range (delta : Z) : 0 <= dt_seconds delta < 86400.
Proof. unfold dt_seconds. apply Z.mod_pos_bound. lia. Qed.

Lemma time_in_zone_of_range (in_zone : bool) (utc : Z) (out : option Z) (t : Q) :
  time_in_zone_of in_zone utc out = Some t → (0 <= t)%Q ∧ (t < 1440)%Q.
Proof.
  unfold time_in_zone_of. destruct out as [o|]; [|done]. intros [= <-].
  pose proof (dt_seconds_range (if in_zone then o - utc else 0)) as H.
  unfold Qle, Qlt, Qdiv, Qmult, Qinv, inject_Z. simpl. lia.
Qed.

Lemma time_in_zone_of_exit (utc : Z) (out : option Z) (t : Q) :
  time_in_zone_of false utc out = Some t → (t <= 0)%Q.
Proof.
  unfold time_in_zone_of. destruct out as [o|]; [|done]. intros [= <-].
  vm_compute. discriminate.
Qed.

(** The dwell of a row never reaches one day: it lies between 0 and 1440
    minutes, so a zone whose threshold is 1440 minutes or more keeps no
    visit at all. *)
Theorem time_in_zone_below_1440 (d : list Position.t) (v : Visit (option Q)) (t : Q) :
  v ∈ d_entries_and_exits d →
  time_in_zone v = Some t →
  (0 <= t)%Q ∧ (t < 1440)%Q
  ∧ ∀ thr, dwell_time v = Some thr → (1440 <= thr)%Q →
           set_primary map_primary v ∉ extract_entries_and_exits d.
Proof.
  intros Hv Ht.
  pose proof (add_UTC_out_time_in_zone _ _ Hv) as Htz. rewrite Ht in Htz.
  symmetry in Htz. apply time_in_zone_of_range in Htz as [H0 H1].
  split; [done|]. split; [done|].
  intros thr Hthr Hbig Hin.
  apply (elem_of_extract d v Hv), flyover_filter_true in Hin
    as (t' & thr' & Ht' & Hthr' & Hlt).
  assert (t' = t) by congruence. assert (thr' = thr) by congruence. subst.
  apply (Qlt_irrefl t).
  apply Qlt_le_trans with 1440%Q; [done|].
  apply Qle_trans with thr; [done | by apply Qlt_le_weak].
Qed.

Lemma time_in_zone_below_1440_witness :
  ∃ v t, d_entries_and_exits long_stay !! 0%nat = Some v
         ∧ time_in_zone v = Some t ∧ (t < 1440)%Q.
Proof.
  assert (Hv : ∃ v, d_entries_and_exits long_stay !! 0%nat = Some v)
    by (eexists; reflexivity).
  destruct Hv as [v Hv]. exists v.
  assert (Hin : v ∈ d_entries_and_exits long_stay)
    by (eapply list_elem_of_lookup_2; exact Hv).
  assert (Ht : time_in_zone v = Some (inject_Z 600 / 60)%Q)
    by (vm_compute in Hv; injection Hv as <-; reflexivity).
  eexists. split; [exact Hv|]. split; [exact Ht|].
  by destruct (time_in_zone_below_1440 long_stay v _ Hin Ht) as (_ & H & _).
Defined.

(** Every returned row has an exit time and a dwell above its own
    threshold.  When that threshold is not negative the row is an entry
    into a zone, and its dwell is the time to its exit, less the whole
    days. *)
Theorem returned_rows_are_dwellings (d : list Position.t) (w : Visit (option bool)) :
  w ∈ extract_entries_and_exits d →
  ∃ t thr out,
    time_in_zone w = Some t ∧ dwell_time w = Some thr ∧ UTC_out w = Some out
    ∧ (thr < t)%Q ∧ (t < 1440)%Q
    ∧ ((0 <= thr)%Q →
         in_helipad_zone w = true ∧ zone_name w ≠ None
         ∧ t = (inject_Z ((out - UTC w) mod 86400) / 60)%Q).
Proof.
  unfold extract_entries_and_exits.
  rewrite list_elem_of_In, in_map_iff. intros (v & <- & Hin).
  apply list_elem_of_In in Hin.
  apply (list_elem_of_filter (fun v => flyover_filter v = true)) in Hin as [HF Hv].
  apply flyover_filter_true in HF as (t & thr & Ht & Hthr & Hlt).
  pose proof (add_UTC_out_time_in_zone _ _ Hv) as Htz.
  pose proof (add_UTC_out_in_zone _ _ Hv) as Hz.
  rewrite Ht in Htz. symmetry in Htz.
  pose proof (time_in_zone_of_range _ _ _ _ Htz) as [_ Hday].
  assert (Hexit : in_helipad_zone v = false → (0 <= thr)%Q → False).
  { intros Ez Hthr0. rewrite Ez in Htz.
    apply time_in_zone_of_exit in Htz.
    apply (Qlt_irrefl thr). apply Qlt_le_trans with t; [done|].
    by apply Qle_trans with 0%Q. }
  unfold time_in_zone_of in Htz.
  destruct (UTC_out v) as [out|] eqn:Eout; [|done].
  exists t, thr, out. simpl. repeat split; try done.
  - destruct (in_helipad_zone v) eqn:Ez; [done|]. exfalso. by apply Hexit.
  - intros Hnone. destruct (in_helipad_zone v) eqn:Ez.
    + rewrite Hnone in Hz. done.
    + by apply Hexit.
  - destruct (in_helipad_zone v) eqn:Ez.
    + by injection Htz as <-.
    + exfalso. by apply Hexit.
Qed.

Lemma returned_rows_are_dwellings_witness :
  ∃ w t, w ∈ extract_entries_and_exits short_stay
         ∧ time_in_zone w = Some t ∧ (5 < t)%Q.
Proof.
  assert (Hw : ∃ w, extract_entries_and_exits short_stay !! 0%nat = Some w)
    by (eexists; reflexivity).
  destruct Hw as [w Hw].
  assert (Hin : w ∈ extract_entries_and_exits short_stay)
    by (eapply list_elem_of_lookup_2; exact Hw).
  destruct (returned_rows_are_dwellings short_stay w Hin)
    as (t & thr & out & Ht & Hthr & _ & Hlt & _).
  exists w, t. split; [done|]. split; [done|].
  assert (thr = 5%Q); [|by subst].
  vm_compute in Hw. injection Hw as <-. simpl in Hthr. congruence.
Defined.

(** *** Pairing of an event with the next event of its aircraft *)

Lemma add_UTC_out_split (events : list Position.t)
    (l1 l2 : list (Visit (option Q))) (x : Visit (option Q)) :
  add_UTC_out events = l1 ++ x :: l2 →
  ∃ p e2, l2 = add_UTC_out e2
          ∧ aircraft_id x = Position.aircraft_id p
          ∧ UTC_out x = next_UTC (Position.aircraft_id p) e2.
Proof.
  revert events. induction l1 as [|a l1 IH]; intros [|p rest]; simpl; try done.
  - intros [= <- <-]. by exists p, rest.
  - intros [= _ H]. by apply IH in H.
Qed.

Lemma next_UTC_none (a : Z) (e : list Position.t) :
  Forall (fun y : Visit (option Q) => aircraft_id y ≠ a) (add_UTC_out e) →
  next_UTC a e = None.
Proof.
  induction e as [|p e IH]; [done|]. simpl.
  intros H. apply Forall_cons in H as [Hp H]. simpl in Hp.
  destruct (Z.eqb_spec (Position.aircraft_id p) a); [done | by apply IH].
Qed.

Lemma next_UTC_some (a : Z) (e : list Position.t)
    (mid l3 : list (Visit (option Q))) (y : Visit (option Q)) :
  add_UTC_out e = mid ++ y :: l3 →
  aircraft_id y = a →
  Forall (fun z : Visit (option Q) => aircraft_id z ≠ a) mid →
  next_UTC a e = Some (UTC y).
Proof.
  revert e. induction mid as [|m mid IH]; intros [|p e]; simpl; try done.
  - intros [= <- _] Ha _. simpl in Ha. by rewrite Ha, Z.eqb_refl.
  - intros [= <- H] Ha Hmid. apply Forall_cons in Hmid as [Hm Hmid].
    simpl in Hm. destruct (Z.eqb_spec (Position.aircraft_id p) a); [done|].
    by apply IH.
Qed.

(** The exit time of an event row is the time of the next event row of the
    same aircraft, however many event rows of other aircraft lie between
    the two, and it is null when no event row of that aircraft follows. *)
Theorem UTC_out_is_next_event_of_aircraft (d : list Position.t)
    (l1 l2 : list (Visit (option Q))) (x : Visit (option Q)) :
  d_entries_and_exits d = l1 ++ x :: l2 →
  (Forall (fun y => aircraft_id y ≠ aircraft_id x) l2 → UTC_out x = None)
  ∧ (∀ mid y l3,
       l2 = mid ++ y :: l3 →
       aircraft_id y = aircraft_id x →
       Forall (fun z => aircraft_id z ≠ aircraft_id x) mid →
       UTC_out x = Some (UTC y)).
Proof.
  intros Hsplit. unfold d_entries_and_exits in Hsplit.
  apply add_UTC_out_split in Hsplit as (p & e2 & -> & Ha & ->).
  rewrite Ha. split.
  - apply next_UTC_none.
  - intros mid y l3 Hl2. by apply (next_UTC_some _ _ mid l3).
Qed.

Lemma UTC_out_is_next_event_of_aircraft_witness :
  ∃ x y, d_entries_and_exits (two_aircraft false) !! 1%nat = Some x
         ∧ d_entries_and_exits (two_aircraft false) !! 2%nat = Some y
         ∧ UTC_out x = Some (UTC y).
Proof.
  assert (H : ∃ a x y, d_entries_and_exits (two_aircraft false) = [a] ++ x :: [] ++ y :: [])
    by (do 3 eexists; reflexivity).
  destruct H as (a & x & y & H). exists x, y.
  rewrite H. split; [reflexivity|]. split; [reflexivity|].
  destruct (UTC_out_is_next_event_of_aircraft _ _ _ _ H) as [_ Hnext].
  apply (Hnext [] y []); [reflexivity | | constructor].
  vm_compute in H. by injection H as _ <- <-.
Defined.

(** *** Entries and exits alternate *)

Local Abbreviation in_zone p := (negb (isnan (Position.zone_name p))).

(** The event rows of a frame whose first row is compared with the state
    [prev] of a row above it. *)
Local Abbreviation events_after prev l :=
  (mask_rows l
     (zip_with orb
        (zip_with andb
           (zip_with ne (in_zone_col l)
              (take (length (in_zone_col l)) (prev :: map Some (in_zone_col l))))
           (in_zone_col l))
        (zip_with andb
           (zip_with ne (in_zone_col l)
              (take (length (in_zone_col l)) (prev :: map Some (in_zone_col l))))
           (map negb (in_zone_col l))))).

Lemma events_after_cons (prev : option bool) (p : Position.t) (l : list Position.t) :
  events_after prev (p :: l)
  = if ne (in_zone p) prev then p :: events_after (Some (in_zone p)) l
    else events_after (Some (in_zone p)) l.
Proof.
  unfold mask_rows. simpl.
  rewrite filter_cons. simpl.
  destruct (ne (in_zone p) prev), (isnan (Position.zone_name p)); reflexivity.
Qed.

Lemma events_after_alternate (prev : option bool) (l : list Position.t) :
  (∀ b p, prev = Some b → head (events_after prev l) = Some p → in_zone p = negb b)
  ∧ (∀ i p q, events_after prev l !! i = Some p →
              events_after prev l !! S i = Some q → in_zone q = negb (in_zone p)).
Proof.
  revert prev. induction l as [|a l IH]; intros prev.
  - split; [by intros b p _ H | by intros i p q H].
  - rewrite events_after_cons. destruct (IH (Some (in_zone a))) as [IHh IHt].
    destruct (ne (in_zone a) prev) eqn:E.
    + split.
      * intros b p -> [= <-]. simpl in E.
        destruct (negb (isnan (Position.zone_name a))), b; done.
      * intros [|i] p q Hp Hq.
        -- injection Hp as <-. simpl in Hq.
           apply (IHh (in_zone a) q eq_refl).
           by destruct (events_after (Some (in_zone a)) l).
        -- by apply (IHt i).
    + split; [|exact IHt].
      intros b p -> Hp. simpl in E.
      assert (in_zone a = b)
        by (destruct (negb (isnan (Position.zone_name a))), b; done).
      subst b. by apply IHh.
Qed.

Lemma add_UTC_out_lookup (events : list Position.t) (i : nat) (v : Visit (option Q)) :
  add_UTC_out events !! i = Some v →
  ∃ p, events !! i = Some p ∧ in_helipad_zone v = in_zone p.
Proof.
  revert i. induction events as [|p rest IH]; intros [|i]; simpl; try done.
  - intros [= <-]. by exists p.
  - apply IH.
Qed.

(** Along the rows of [d_entries_and_exits], taken over the whole frame,
    entries and exits alternate: the row after an entry is an exit and the
    row after an exit is an entry. *)
Theorem entries_and_exits_alternate (d : list Position.t) (i : nat)
    (a b : Visit (option Q)) :
  d_entries_and_exits d !! i = Some a →
  d_entries_and_exits d !! S i = Some b →
  in_helipad_zone b = negb (in_helipad_zone a).
Proof.
  unfold d_entries_and_exits. intros Ha Hb.
  apply add_UTC_out_lookup in Ha as (p & Hp & ->).
  apply add_UTC_out_lookup in Hb as (q & Hq & ->).
  destruct (events_after_alternate None d) as [_ Halt].
  by apply (Halt i).
Qed.

Lemma entries_and_exits_alternate_witness :
  ∃ a b, d_entries_and_exits short_stay !! 0%nat = Some a
         ∧ d_entries_and_exits short_stay !! 1%nat = Some b
         ∧ in_helipad_zone b = negb (in_helipad_zone a).
Proof.
  assert (H : ∃ a b, d_entries_and_exits short_stay !! 0%nat = Some a
                     ∧ d_entries_and_exits short_stay !! 1%nat = Some b)
    by (do 2 eexists; split; reflexivity).
  destruct H as (a & b & Ha & Hb). exists a, b.
  split; [done|]. split; [done|].
  exact (entries_and_exits_alternate short_stay 0 a b Ha Hb).
Defined.

End Visits.

(** ** The whole pipeline *)

Section Pipeline.
Import find_transfers.

Lemma set_primary_back (v : Visit (option bool)) (b : bool) :
  is_primary_hospital v = Some b →
  set_primary Some (set_primary (fun _ => b) v) = v.
Proof. destruct v; simpl. by intros ->. Qed.

(** [find_transfers] fails exactly when a visit that passed the fly-over
    filter carries a code other than 0 and 1.  When it returns, the sending
    and the receiving visit of every transfer are rows that passed the
    filter, with the codes 1 and 0. *)
Theorem find_transfers_result (dist : Geometry → Geometry → Q)
    (d : list Position.t) (mtt : Z) (ro : bool) (f o : Q) :
  (find_transfers dist d mtt ro f o = None
   ↔ ∃ v, v ∈ extract_entries_and_exits d ∧ is_primary_hospital v = None)
  ∧ (∀ out, find_transfers dist d mtt ro f o = Some out →
       Forall (fun t =>
                 set_primary Some (sending t) ∈ extract_entries_and_exits d
                 ∧ is_primary_hospital (sending t) = true
                 ∧ set_primary Some (receiving t) ∈ extract_entries_and_exits d
                 ∧ is_primary_hospital (receiving t) = false)
              out).
Proof.
  unfold find_transfers. cbv zeta.
  set (conv := fun v : Visit (option bool) =>
                 match is_primary_hospital v with
                 | Some b => Some (set_primary (fun _ => b) v)
                 | None => None
                 end).
  split.
  - destruct (mapM conv (extract_entries_and_exits d)) as [visits|] eqn:E; simpl.
    + split; [done|]. intros (v & Hv & Hnone). exfalso.
      assert (Hs : is_Some (mapM conv (extract_entries_and_exits d))) by eauto.
      apply mapM_is_Some in Hs. rewrite Forall_forall in Hs.
      destruct (Hs v Hv) as [x Hx]. unfold conv in Hx. simpl in Hx.
      by rewrite Hnone in Hx.
    + split; [|done]. intros _.
      apply mapM_None, Exists_exists in E as (v & Hv & Hnone).
      exists v. split; [done|]. unfold conv in Hnone.
      by destruct (is_primary_hospital v).
  - intros out.
    destruct (mapM conv (extract_entries_and_exits d)) as [visits|] eqn:E;
      simpl; [|done].
    intros [= <-]. apply mapM_Some in E.
    assert (Hback : ∀ x, x ∈ visits →
              set_primary Some x ∈ extract_entries_and_exits d).
    { intros x Hx. apply list_elem_of_lookup in Hx as [n Hn].
      destruct (Forall2_lookup_r _ _ _ _ _ E Hn) as (v & Hv & Hc).
      unfold conv in Hc.
      destruct (is_primary_hospital v) as [b|] eqn:Eb; [|done].
      injection Hc as <-. rewrite (set_primary_back v b Eb).
      by eapply list_elem_of_lookup_2. }
    apply Forall_forall. intros t Ht.
    apply elem_of_create_transfer_dataframe in Ht
      as ([[[i P] k] [[j T] k']] & Hin & -> & _).
    apply elem_of_merged_rows in Hin as (Hi & Hp & _ & Hj & Ht & _).
    simpl. repeat split; try done.
    + apply Hback. by eapply list_elem_of_lookup_2.
    + apply Hback. by eapply list_elem_of_lookup_2.
Qed.

Lemma find_transfers_result_witness :
  find_transfers fifty_km bad_code 3 false 2 5 = None
  ∧ ∃ out t, find_transfers fifty_km one_flight 3 false 2 5 = Some out
             ∧ t ∈ out
             ∧ set_primary Some (sending t) ∈ extract_entries_and_exits one_flight.
Proof.
  split.
  - apply (find_transfers_result fifty_km bad_code 3 false 2 5).
    assert (Hv : ∃ v, extract_entries_and_exits bad_code !! 1%nat = Some v)
      by (eexists; reflexivity).
    destruct Hv as [v Hv]. exists v.
    split; [by eapply list_elem_of_lookup_2|].
    vm_compute in Hv. by injection Hv as <-.
  - assert (Ho : ∃ t, find_transfers fifty_km one_flight 3 false 2 5 = Some [t])
      by (eexists; reflexivity).
    destruct Ho as [t Ho]. exists [t], t.
    split; [done|]. split; [apply list_elem_of_here|].
    destruct (find_transfers_result fifty_km one_flight 3 false 2 5) as [_ H].
    specialize (H _ Ho). apply Forall_cons in H as [(Hs & _) _]. exact Hs.
Defined.

End Pipeline.

(** ** Further properties of the weather minima *)

Section MoreMinima.
Import infer_hems_minima.

(** Example observations of two airports. *)
Local Abbreviation essa t v := {| icao := "ESSA"; time_utc := t; hems_minima_col := v |}.
Local Abbreviation essb t v := {| icao := "ESSB"; time_utc := t; hems_minima_col := v |}.

Ltac q_split :=
  match goal with
  | H : context [Qgeb ?x ?y] |- _ =>
      let E := fresh "E" in
      destruct (Qgeb x y) eqn:E;
      [apply Qgeb_true in E | apply Qgeb_false in E]
  | H : context [Qltb ?x ?y] |- _ =>
      let E := fresh "E" in
      destruct (Qltb x y) eqn:E;
      [apply Qltb_true in E | apply Qltb_false in E]
  | |- context [Qgeb ?x ?y] =>
      let E := fresh "E" in
      destruct (Qgeb x y) eqn:E;
      [apply Qgeb_true in E | apply Qgeb_false in E]
  | |- context [Qltb ?x ?y] =>
      let E := fresh "E" in
      destruct (Qltb x y) eqn:E;
      [apply Qltb_true in E | apply Qltb_false in E]
  end.

Ltac q_props := repeat q_split.

Ltac q_prune :=
  repeat (q_split; cbn [andb] in *; try done; try (exfalso; lra)).

(** Better weather never turns a pass into a failure: when an observation
    meets the minima, so does every observation of the same daylight
    status whose ceiling, cloud base and visibility are present and at
    least as high. *)
Theorem hems_minima_monotone (r r' : Observation) :
  daylight r' = daylight r →
  (∀ c, metar_cloud_ceiling r = Some c →
        ∃ c', metar_cloud_ceiling r' = Some c' ∧ (c <= c')%Q) →
  (∀ b, metar_cloud_base r = Some b →
        ∃ b', metar_cloud_base r' = Some b' ∧ (b <= b')%Q) →
  (∀ v, metar_visibility r = Some v →
        ∃ v', metar_visibility r' = Some v' ∧ (v <= v')%Q) →
  hems_minima r = Some true → hems_minima r' = Some true.
Proof.
  destruct r as [dl cc cb vis], r' as [dl' cc' cb' vis']; simpl.
  intros -> Hc Hb Hv. unfold hems_minima; simpl.
  destruct dl.
  - destruct cc as [c|]; [|done]. destruct vis as [v|]; [|done].
    destruct (Hc c eq_refl) as (c' & -> & Hcc).
    destruct (Hv v eq_refl) as (v' & -> & Hvv).
    intros H. q_prune.
  - destruct cb as [b|]; [|done]. destruct vis as [v|]; [|done].
    destruct (Hb b eq_refl) as (b' & -> & Hbb).
    destruct (Hv v eq_refl) as (v' & -> & Hvv).
    intros H. q_prune.
Qed.

Lemma hems_minima_monotone_witness :
  hems_minima {| daylight := true; metar_cloud_ceiling := Some 600%Q;
                 metar_cloud_base := Some 600%Q;
                 metar_visibility := Some 5000%Q |} = Some true.
Proof.
  apply (hems_minima_monotone
           {| daylight := true; metar_cloud_ceiling := Some 450%Q;
              metar_cloud_base := None; metar_visibility := Some 1200%Q |}).
  - reflexivity.
  - simpl. intros c [= <-]. eexists. split; [reflexivity | lra].
  - simpl. intros b H. discriminate.
  - simpl. intros v [= <-]. eexists. split; [reflexivity | lra].
  - reflexivity.
Defined.

(** What every pass needs: all the values the branch reads are present,
    the visibility is at least 800 m, by day the ceiling is at least
    300 ft, and by night the cloud base is at least 1200 ft and the
    visibility at least 2500 m. *)
Theorem hems_minima_pass_needs (row : Observation) :
  hems_minima row = Some true →
  (∃ v, metar_visibility row = Some v ∧ (800 <= v)%Q
        ∧ (daylight row = false → (2500 <= v)%Q))
  ∧ (daylight row = true →
       ∃ c, metar_cloud_ceiling row = Some c ∧ (300 <= c)%Q)
  ∧ (daylight row = false →
       ∃ b, metar_cloud_base row = Some b ∧ (1200 <= b)%Q).
Proof.
  destruct row as [dl cc cb vis]; simpl. unfold hems_minima; simpl.
  destruct dl.
  - destruct cc as [c|]; [|done]. destruct vis as [v|]; [|done].
    intros H. q_props; simpl in *; try done.
    all: split; [exists v; split; [done|]; split; [lra | done]|].
    all: split; [intros _; exists c; split; [done | lra] | done].
  - destruct cb as [b|]; [|done]. destruct vis as [v|]; [|done].
    intros H. q_props; simpl in *; try done.
    split; [exists v; split; [done|]; split; [lra | intros _; lra]|].
    split; [done|]. intros _. exists b. split; [done | lra].
Qed.

Lemma hems_minima_pass_needs_witness :
  ∃ v, Some 1200%Q = Some v ∧ (800 <= v)%Q.
Proof.
  destruct (hems_minima_pass_needs
              {| daylight := true; metar_cloud_ceiling := Some 450%Q;
                 metar_cloud_base := None; metar_visibility := Some 1200%Q |}
              eq_refl) as [(v & Hv & H800 & _) _].
  exists v. split; [exact Hv | exact H800].
Defined.

(** *** Grouping rows by a key *)

Lemma filter_all {A} (P : A → Prop) `{∀ x, Decision (P x)} (l : list A) :
  (∀ x, x ∈ l → P x) → filter P l = l.
Proof.
  induction l as [|a l IH]; intros Hall; [done|].
  rewrite filter_cons, decide_True by (apply Hall, list_elem_of_here).
  f_equal. apply IH. intros x Hx. by apply Hall, list_elem_of_further.
Qed.

Lemma filter_none {A} (P : A → Prop) `{∀ x, Decision (P x)} (l : list A) :
  (∀ x, x ∈ l → ¬ P x) → filter P l = [].
Proof.
  induction l as [|a l IH]; intros Hall; [done|].
  rewrite filter_cons, decide_False by (apply Hall, list_elem_of_here).
  apply IH. intros x Hx. by apply Hall, list_elem_of_further.
Qed.

Lemma filter_key_split {A K} `{EqDecision K} (key : A → K) (k : K) (ks : list K)
    (l : list A) :
  k ∉ ks →
  filter (fun x => key x = k) l ++ filter (fun x => key x ∈ ks) l
  ≡ₚ filter (fun x => key x ∈ k :: ks) l.
Proof.
  intros Hk. induction l as [|a l IH]; [done|].
  rewrite !filter_cons.
  destruct (decide (key a = k)) as [Ha|Ha].
  - rewrite decide_False by (by rewrite Ha).
    rewrite decide_True by (rewrite Ha; apply list_elem_of_here).
    simpl. by rewrite IH.
  - destruct (decide (key a ∈ ks)) as [Hin|Hin].
    + rewrite decide_True by (by apply list_elem_of_further).
      rewrite <- Permutation_middle. by rewrite IH.
    + rewrite decide_False; [exact IH|].
      intros [?|?]%elem_of_cons; done.
Qed.

Lemma groups_Permutation_filter {A K} `{EqDecision K} (key : A → K) (keys : list K)
    (l : list A) :
  NoDup keys →
  concat (map (fun k => filter (fun x => key x = k) l) keys)
  ≡ₚ filter (fun x => key x ∈ keys) l.
Proof.
  induction 1 as [|k ks Hk Hnd IH]; simpl.
  - rewrite filter_none; [done|].
    intros x _ Hx. by apply elem_of_nil in Hx.
  - rewrite IH. by apply filter_key_split.
Qed.

(** Cutting a frame into the groups of its keys and putting the groups
    one after the other keeps every row exactly once. *)
Lemma groups_Permutation {A K} `{EqDecision K} (key : A → K) (keys : list K)
    (l : list A) :
  NoDup keys → (∀ x, x ∈ l → key x ∈ keys) →
  concat (map (fun k => filter (fun x => key x = k) l) keys) ≡ₚ l.
Proof.
  intros Hnd Hcover.
  rewrite (groups_Permutation_filter key keys l Hnd).
  by rewrite (filter_all (fun x => key x ∈ keys) l Hcover).
Qed.

(** *** The rolling window *)

Lemma group_keys_NoDup (d : list Verdict) : NoDup (group_keys d).
Proof.
  unfold group_keys. rewrite (merge_sort_Permutation string_le).
  apply NoDup_remove_dups.
Qed.

Lemma concat_map_Permutation {A B} (f g : A → list B) (l : list A) :
  (∀ x, f x ≡ₚ g x) → concat (map f l) ≡ₚ concat (map g l).
Proof.
  intros Hfg. induction l as [|a l IH]; simpl; [done|].
  by rewrite IH, Hfg.
Qed.

(** The returned frame holds every observation of the input exactly once,
    with its verdict unchanged. *)
Theorem hems_minima_window_keeps_rows (d : list Verdict) (window : Z) :
  map base (hems_minima_window d window) ≡ₚ d.
Proof.
  unfold hems_minima_window. cbv zeta.
  rewrite map_map. simpl.
  rewrite <- (map_map fst (fun r => r)), map_id.
  rewrite concat_map, map_map.
  etrans; [|apply (groups_Permutation icao (group_keys d) d)].
  - apply concat_map_Permutation. intros airport.
    unfold rolling_apply. rewrite zip_map_self, map_map. simpl.
    rewrite map_id. unfold sort_by_time.
    apply (merge_sort_Permutation time_le).
  - apply group_keys_NoDup.
  - intros r Hr. apply elem_of_group_keys. by exists r.
Qed.

Lemma in_window_self (window t : Z) : 1 <= window → in_window window t t = true.
Proof.
  intros Hw. unfold in_window.
  apply andb_true_iff. split.
  - destruct (Z.odd window) eqn:E.
    + apply Z.leb_le. Z.div_mod_to_equations. lia.
    + apply Z.ltb_lt.
      assert (window ≠ 1) by (intros ->; done).
      Z.div_mod_to_equations. lia.
  - apply Z.leb_le. Z.div_mod_to_equations. lia.
Qed.

(** The aggregate never hides what the row itself shows: with a window of
    at least one nanosecond, a row whose own verdict is true has the
    aggregate true, and a row whose own verdict is known has a known
    aggregate. *)
Theorem hems_minima_window_own_verdict (d : list Verdict) (window : Z) (w : Windowed) :
  1 <= window →
  w ∈ hems_minima_window d window →
  (hems_minima_col (base w) = Some true → hems_minima_window_col w = Some true)
  ∧ (hems_minima_col (base w) ≠ None → hems_minima_window_col w ≠ None).
Proof.
  intros Hw Hin.
  apply elem_of_hems_minima_window in Hin as (r & Hr & <- & Hc).
  cbv zeta in Hc. set (vs := map hems_minima_col _) in Hc.
  assert (Hown : In (hems_minima_col (base w)) vs).
  { apply in_period. exists (base w). split; [|done].
    split; [done|]. split; [done|]. by apply in_window_self. }
  rewrite Hc. split.
  - intros Ht. rewrite Ht in Hown.
    destruct (forallb isnan vs) eqn:E.
    + rewrite forallb_forall in E. by specialize (E _ Hown).
    + assert (He : existsb (fun v => if v is Some true then true else false) vs = true)
        by (apply existsb_exists; by exists (Some true)).
      by rewrite He.
  - intros Hk. destruct (forallb isnan vs) eqn:E; [|done].
    rewrite forallb_forall in E. specialize (E _ Hown).
    by destruct (hems_minima_col (base w)).
Qed.

Lemma hems_minima_window_own_verdict_witness :
  {| base := essa 0 (Some true); hems_minima_window_col := Some true |}
    ∈ hems_minima_window [essa 0 (Some true)] default_window
  ∧ hems_minima_window_col
      {| base := essa 0 (Some true); hems_minima_window_col := Some true |}
    = Some true.
Proof.
  assert (Hin : {| base := essa 0 (Some true); hems_minima_window_col := Some true |}
                  ∈ hems_minima_window [essa 0 (Some true)] default_window)
    by (apply list_elem_of_In; vm_compute; left; reflexivity).
  split; [exact Hin|].
  assert (Hw : 1 <= default_window) by (unfold default_window; lia).
  destruct (hems_minima_window_own_verdict _ _ _ Hw Hin) as [H _].
  exact (H eq_refl).
Defined.

Lemma in_window_wider (w w' t t' : Z) :
  0 <= w <= w' → in_window w t t' = true → in_window w' t t' = true.
Proof.
  intros Hw. unfold in_window. rewrite !andb_true_iff.
  intros [Hl Hr]. apply Z.leb_le in Hr.
  assert (Hhalf : w / 2 <= w' / 2) by (Z.div_mod_to_equations; lia).
  split; [|apply Z.leb_le; lia].
  destruct (Z.odd w) eqn:Eo; destruct (Z.odd w') eqn:Eo'.
  - apply Z.leb_le in Hl. apply Z.leb_le. lia.
  - apply Z.leb_le in Hl. apply Z.ltb_lt.
    rewrite <- Z.negb_even, negb_true_iff in Eo.
    rewrite <- Z.negb_even, negb_false_iff in Eo'.
    apply Z.even_spec in Eo' as [m' Hm'].
    assert (Z.odd w = true) as Ho by (by rewrite <- Z.negb_even, Eo).
    apply Z.odd_spec in Ho as [m Hm].
    Z.div_mod_to_equations. lia.
  - apply Z.ltb_lt in Hl. apply Z.leb_le. lia.
  - apply Z.ltb_lt in Hl. apply Z.ltb_lt. lia.
Qed.

(** Aggregates in terms of the rows of the window. *)
Lemma window_col_true (d : list Verdict) (window : Z) (w : Windowed) :
  w ∈ hems_minima_window d window →
  hems_minima_window_col w = Some true
  ↔ ∃ r', (icao r' = icao (base w) ∧ r' ∈ d
           ∧ in_window window (time_utc (base w)) (time_utc r') = true)
          ∧ hems_minima_col r' = Some true.
Proof.
  intros Hin.
  apply elem_of_hems_minima_window in Hin as (r & Hr & <- & Hc).
  cbv zeta in Hc. set (vs := map hems_minima_col _) in Hc. rewrite Hc.
  split.
  - destruct (forallb isnan vs); [done|].
    destruct (existsb _ vs) eqn:E; [|done]. intros _.
    apply existsb_exists in E as (v & Hv & Ht).
    destruct v as [[|]|]; try done. by apply in_period in Hv.
  - intros Hex. apply in_period in Hex. fold vs in Hex.
    destruct (forallb isnan vs) eqn:E.
    + rewrite forallb_forall in E. by specialize (E _ Hex).
    + assert (He : existsb (fun v => if v is Some true then true else false) vs = true)
        by (apply existsb_exists; by exists (Some true)).
      by rewrite He.
Qed.

Lemma window_col_known (d : list Verdict) (window : Z) (w : Windowed) :
  w ∈ hems_minima_window d window →
  hems_minima_window_col w ≠ None
  ↔ ∃ r', (icao r' = icao (base w) ∧ r' ∈ d
           ∧ in_window window (time_utc (base w)) (time_utc r') = true)
          ∧ hems_minima_col r' ≠ None.
Proof.
  intros Hin.
  apply elem_of_hems_minima_window in Hin as (r & Hr & <- & Hc).
  cbv zeta in Hc. set (vs := map hems_minima_col _) in Hc. rewrite Hc.
  split.
  - destruct (forallb isnan vs) eqn:E; [done|]. intros _.
    assert (Hex : existsb (fun v => negb (isnan v)) vs = true).
    { clear -E. induction vs as [|[b|] vs IH]; simpl in *; try done.
      by apply IH. }
    apply existsb_exists in Hex as (v & Hv & Hk).
    apply in_period in Hv as (r' & Hr' & <-).
    exists r'. split; [done|]. by destruct (hems_minima_col r').
  - intros (r' & Hr' & Hk).
    assert (Hv : In (hems_minima_col r') vs) by (apply in_period; eauto).
    destruct (forallb isnan vs) eqn:E; [|done].
    rewrite forallb_forall in E. specialize (E _ Hv).
    by destruct (hems_minima_col r').
Qed.

(** A longer window is more tolerant: for the same observation, an
    aggregate that is true stays true, and one that is known stays known,
    when the window grows. *)
Theorem hems_minima_window_wider (d : list Verdict) (window window' : Z)
    (w w' : Windowed) :
  0 <= window <= window' →
  w ∈ hems_minima_window d window →
  w' ∈ hems_minima_window d window' →
  base w' = base w →
  (hems_minima_window_col w = Some true → hems_minima_window_col w' = Some true)
  ∧ (hems_minima_window_col w ≠ None → hems_minima_window_col w' ≠ None).
Proof.
  intros Hw Hin Hin' Hb. split.
  - rewrite (window_col_true d window w Hin), (window_col_true d window' w' Hin').
    rewrite Hb. intros (r' & (Hi & Hr & Hwin) & Ht).
    exists r'. split; [|done]. split; [done|]. split; [done|].
    by eapply in_window_wider.
  - rewrite (window_col_known d window w Hin), (window_col_known d window' w' Hin').
    rewrite Hb. intros (r' & (Hi & Hr & Hwin) & Ht).
    exists r'. split; [|done]. split; [done|]. split; [done|].
    by eapply in_window_wider.
Qed.

Lemma hems_minima_window_wider_witness :
  {| base := essa 0 (Some true); hems_minima_window_col := Some true |}
    ∈ hems_minima_window [essa 0 (Some true)] default_window
  ∧ {| base := essa 0 (Some true); hems_minima_window_col := Some true |}
      ∈ hems_minima_window [essa 0 (Some true)] (2 * default_window)
  ∧ hems_minima_window_col
      {| base := essa 0 (Some true); hems_minima_window_col := Some true |}
    = Some true.
Proof.
  assert (Hin : {| base := essa 0 (Some true); hems_minima_window_col := Some true |}
                  ∈ hems_minima_window [essa 0 (Some true)] default_window)
    by (apply list_elem_of_In; vm_compute; left; reflexivity).
  assert (Hin' : {| base := essa 0 (Some true); hems_minima_window_col := Some true |}
                   ∈ hems_minima_window [essa 0 (Some true)] (2 * default_window))
    by (apply list_elem_of_In; vm_compute; left; reflexivity).
  split; [exact Hin|]. split; [exact Hin'|].
  assert (Hw : 0 <= default_window <= 2 * default_window)
    by (unfold default_window; lia).
  destruct (hems_minima_window_wider _ _ _ _ _ Hw Hin Hin' eq_refl) as [H _].
  exact (H eq_refl).
Defined.

(** The aggregate of a row is decided by the rows of its own airport: two
    frames that hold the same rows for that airport give the row the same
    aggregate, whatever they hold for other airports. *)
Theorem hems_minima_window_per_airport (d1 d2 : list Verdict) (window : Z)
    (w1 w2 : Windowed) :
  (∀ r, icao r = icao (base w1) → (r ∈ d1 ↔ r ∈ d2)) →
  w1 ∈ hems_minima_window d1 window →
  w2 ∈ hems_minima_window d2 window →
  base w2 = base w1 →
  hems_minima_window_col w2 = hems_minima_window_col w1.
Proof.
  intros Hsame Hin1 Hin2 Hb.
  pose proof (window_col_true d1 window w1 Hin1) as Ht1.
  pose proof (window_col_true d2 window w2 Hin2) as Ht2.
  pose proof (window_col_known d1 window w1 Hin1) as Hk1.
  pose proof (window_col_known d2 window w2 Hin2) as Hk2.
  rewrite Hb in Ht2, Hk2.
  assert (Ht : hems_minima_window_col w2 = Some true
               ↔ hems_minima_window_col w1 = Some true).
  { rewrite Ht1, Ht2. split; intros (r' & (Hi & Hr & Hwin) & Hv);
      exists r'; (split; [|done]); (split; [done|]); (split; [|done]);
      by apply (Hsame r' Hi). }
  assert (Hk : hems_minima_window_col w2 ≠ None
               ↔ hems_minima_window_col w1 ≠ None).
  { rewrite Hk1, Hk2. split; intros (r' & (Hi & Hr & Hwin) & Hv);
      exists r'; (split; [|done]); (split; [done|]); (split; [|done]);
      by apply (Hsame r' Hi). }
  destruct (hems_minima_window_col w1) as [[|]|],
           (hems_minima_window_col w2) as [[|]|]; try done.
  - by destruct (proj2 Ht eq_refl).
  - exfalso. destruct Hk as [_ Hk]. by apply Hk.
  - by destruct (proj1 Ht eq_refl).
  - exfalso. destruct Hk as [_ Hk]. by apply Hk.
  - exfalso. destruct Hk as [Hk _]. by apply Hk.
  - exfalso. destruct Hk as [Hk _]. by apply Hk.
Qed.

Lemma hems_minima_window_per_airport_witness :
  ∃ w2, hems_minima_window [essb 0 (Some true); essa 0 (Some false)] default_window
          !! 0%nat = Some w2
        ∧ base w2 = essa 0 (Some false)
        ∧ hems_minima_window_col w2 = Some false.
Proof.
  assert (H : ∃ w2, hems_minima_window [essb 0 (Some true); essa 0 (Some false)]
                      default_window !! 0%nat = Some w2)
    by (eexists; reflexivity).
  destruct H as [w2 H2]. exists w2. split; [exact H2|].
  assert (Hb : base w2 = essa 0 (Some false))
    by (vm_compute in H2; by injection H2 as <-).
  split; [exact Hb|].
  apply (hems_minima_window_per_airport
           [essa 0 (Some false)] [essb 0 (Some true); essa 0 (Some false)]
           default_window
           {| base := essa 0 (Some false); hems_minima_window_col := Some false |} w2).
  - simpl. intros r' Hi. rewrite !elem_of_cons. split; [tauto|].
    intros [-> | H]; [done | exact H].
  - apply list_elem_of_In. vm_compute. left; reflexivity.
  - by eapply list_elem_of_lookup_2.
  - exact Hb.
Defined.

End MoreMinima.

(** ** METAR reports *)

Section Metar.
Import parse_metar infer_hems_minima.

(** *** Tokens *)

(** A token: not empty, and free of white space. *)
Local Abbreviation token t :=
  ((t : string) ≠ EmptyString
   ∧ ∀ c, In c (String.list_ascii_of_string t) → isspace c = false).

Lemma token_cons (c : Ascii.ascii) (t : string) :
  isspace c = false →
  (t = EmptyString ∨ token t) → token (String c t).
Proof.
  intros Hc Ht. split; [done|]. simpl. intros c' [<- | Hin]; [done|].
  destruct Ht as [-> | [_ Ht]]; [done | by apply Ht].
Qed.

Lemma split_tokens (s : string) : Forall (fun t => token t) (split s).
Proof.
  induction s as [|c s IH]; [constructor|]. simpl.
  destruct (isspace c) eqn:Ec; [exact IH|].
  destruct s as [|c' s'].
  - constructor; [|constructor]. apply token_cons; auto.
  - destruct (isspace c') eqn:Ec'.
    + constructor; [|exact IH]. apply token_cons; auto.
    + destruct (split (String c' s')) as [|tok toks].
      * constructor; [|constructor]. apply token_cons; auto.
      * apply Forall_cons in IH as [Htok Htoks].
        constructor; [|exact Htoks]. apply token_cons; auto.
Qed.

Lemma split_token_app (t rest : string) :
  token t →
  (rest = EmptyString ∨ ∃ c r, rest = String c r ∧ isspace c = true) →
  split (t ++ rest) = t :: split rest.
Proof.
  intros Ht Hrest. induction t as [|c t IH]; [by destruct Ht|].
  destruct Ht as [_ Ht].
  assert (Hc : isspace c = false) by (apply Ht; simpl; auto).
  destruct t as [|c2 t'].
  - destruct Hrest as [-> | (c' & r & -> & Hc')].
    + change (String c "" +:+ "") with (String c "").
      cbn [split]. by rewrite Hc.
    + change (String c "" +:+ String c' r) with (String c (String c' r)).
      cbn [split]. by rewrite Hc, Hc'.
  - assert (Ht' : token (String c2 t')).
    { split; [done|]. intros c' Hin. apply Ht. simpl. right. exact Hin. }
    assert (Hc2 : isspace c2 = false) by (apply Ht; simpl; auto).
    specialize (IH Ht').
    change (String c (String c2 t') ++ rest)%string
      with (String c (String c2 t' ++ rest)).
    change (String c2 t' ++ rest)%string with (String c2 (t' ++ rest)) in *.
    cbn [split]. rewrite Hc, Hc2.
    cbn [split] in IH. rewrite Hc2 in IH. rewrite IH. reflexivity.
Qed.

Lemma append_empty (t : string) : t +:+ "" = t.
Proof.
  induction t as [|c t IH]; [done|].
  change (String c t +:+ "") with (String c (t +:+ "")). by rewrite IH.
Qed.

Lemma split_concat (toks : list string) :
  Forall (fun t => token t) toks →
  split (String.concat " " toks) = toks.
Proof.
  induction 1 as [|t toks Ht Htoks IH]; [done|].
  destruct toks as [|t' toks].
  - pose proof (split_token_app t "" Ht (or_introl eq_refl)) as H.
    rewrite append_empty in H. exact H.
  - change (String.concat " " (t :: t' :: toks))
      with (t +:+ (" " +:+ String.concat " " (t' :: toks))).
    change (" " +:+ String.concat " " (t' :: toks))
      with (String (Ascii.ascii_of_nat 32) (String.concat " " (t' :: toks))).
    rewrite split_token_app; [|done|].
    + f_equal. exact IH.
    + right. eexists _, _. split; [reflexivity | reflexivity].
Qed.

(** [preprocess_metar] returns [None] exactly when the report, with "COR"
    taken out, has fewer than three tokens.  Otherwise the tokens of the
    returned string are those tokens without the third one, in the same
    order: splitting what was joined gives the tokens back. *)
Theorem preprocess_metar_tokens (metar : string) :
  let tokens := split (remove_from "COR" 0 metar) in
  (preprocess_metar metar = None ↔ (length tokens < 3)%nat)
  ∧ (∀ s, preprocess_metar metar = Some s →
          split s = delete 2%nat tokens
          ∧ S (length (split s)) = length tokens).
Proof.
  intros tokens. unfold preprocess_metar. fold tokens.
  destruct (3 <=? length tokens)%nat eqn:E.
  - apply Nat.leb_le in E. split; [split; [done | lia]|].
    intros s [= <-].
    assert (Hsplit : split (String.concat " " (delete 2%nat tokens))
                     = delete 2%nat tokens).
    { apply split_concat, Forall_delete, split_tokens. }
    rewrite Hsplit. split; [done|].
    rewrite length_delete; [lia|].
    apply lookup_lt_is_Some. lia.
  - apply Nat.leb_gt in E. split; [done|]. intros s H. done.
Qed.

(** *** The three helpers *)

Local Abbreviation smaller m x := (if Qle_bool m%Q x%Q then m%Q else x%Q).

Lemma smaller_le_l (m x : Q) : (smaller m x <= m)%Q.
Proof.
  destruct (Qle_bool m x) eqn:E; [apply Qle_refl|].
  apply Qlt_le_weak, Qnot_le_lt. intros H. apply Qle_bool_iff in H. congruence.
Qed.

Lemma smaller_le_r (m x : Q) : (smaller m x <= x)%Q.
Proof.
  destruct (Qle_bool m x) eqn:E; [by apply Qle_bool_iff | apply Qle_refl].
Qed.

Lemma min_of_le_first (first : Q) (rest : list Q) : (min_of first rest <= first)%Q.
Proof.
  unfold min_of. revert first.
  induction rest as [|a rest IH]; intros first; simpl; [apply Qle_refl|].
  eapply Qle_trans; [apply IH | apply smaller_le_l].
Qed.

Lemma min_of_le (first : Q) (rest : list Q) (x : Q) :
  In x (first :: rest) → (min_of first rest <= x)%Q.
Proof.
  revert first. induction rest as [|a rest IH]; intros first.
  - intros [<- | []]. apply Qle_refl.
  - intros [<- | [<- | Hin]].
    + apply min_of_le_first.
    + change (min_of first (a :: rest)) with (min_of (smaller first a) rest).
      eapply Qle_trans; [apply min_of_le_first | apply smaller_le_r].
    + change (min_of first (a :: rest)) with (min_of (smaller first a) rest).
      apply IH. by right.
Qed.

Lemma min_of_In (first : Q) (rest : list Q) : In (min_of first rest) (first :: rest).
Proof.
  revert first. induction rest as [|a rest IH]; intros first; [by left|].
  change (min_of first (a :: rest)) with (min_of (smaller first a) rest).
  destruct (IH (smaller first a)) as [H | H].
  - rewrite <- H. destruct (Qle_bool first a); [by left | by right; left].
  - by right; right.
Qed.

Ltac helper_cases Metar metar :=
  unfold get_horisontal_visibility, get_ceiling, get_base;
  destruct metar as [metar|]; try done;
  destruct (contains "CAVOK" metar); try done;
  destruct (Metar metar) as [observation|]; try done.

(** The three helpers report a parser error for the same reports, and a
    report that gives no ceiling gives no cloud base either. *)
Theorem helpers_fail_together (Metar : string → option parse_metar.Observation)
    (metar : option string) :
  (get_ceiling Metar metar = ParserError
   ↔ get_horisontal_visibility Metar metar = ParserError)
  ∧ (get_base Metar metar = ParserError
     ↔ get_horisontal_visibility Metar metar = ParserError)
  ∧ (get_ceiling Metar metar = Missing → get_base Metar metar = Missing).
Proof.
  helper_cases Metar metar.
  destruct (sky observation) as [|layer layers] eqn:Esky.
  { destruct (vis observation); done. }
  destruct (heights "BKN" (layer :: layers)) as [bkn|];
    destruct (heights "OVC" (layer :: layers)) as [ovc|];
    destruct (heights "VV" (layer :: layers)) as [vv|];
    destruct (heights "FEW" (layer :: layers)) as [few|];
    destruct (heights "SCT" (layer :: layers)) as [sct|];
    cbv zeta.
  all: repeat split; try done.
  all: try (destruct (vis observation); done).
  all: try (by destruct (_ ++ _)).
  all: try (destruct (_ ++ _); intros; destruct (vis observation); done).
Qed.

(** A cloud base is found only where a ceiling is found, and it is not
    above that ceiling, unless the ceiling is the 9999 given to a sky
    without a ceiling layer. *)
Theorem base_not_above_ceiling (Metar : string → option parse_metar.Observation)
    (metar : option string) (b : Q) :
  get_base Metar metar = Number b →
  ∃ c, get_ceiling Metar metar = Number c ∧ ((b <= c)%Q ∨ c = 9999%Q).
Proof.
  unfold get_ceiling, get_base.
  destruct metar as [metar|]; [|done].
  destruct (contains "CAVOK" metar).
  { intros [= <-]. exists 9999%Q. split; [done | by right]. }
  destruct (Metar metar) as [observation|]; [|done].
  destruct (sky observation) as [|layer layers] eqn:Esky; [done|].
  destruct (heights "FEW" (layer :: layers)) as [few|]; [|done].
  destruct (heights "SCT" (layer :: layers)) as [sct|]; [|done].
  destruct (heights "BKN" (layer :: layers)) as [bkn|]; [|done].
  destruct (heights "OVC" (layer :: layers)) as [ovc|]; [|done].
  destruct (heights "VV" (layer :: layers)) as [vv|]; [|done].
  cbv zeta.
  set (C := ovc ++ bkn ++ vv ++ unlimited "NCD" (layer :: layers)
                ++ unlimited "NSC" (layer :: layers)).
  destruct (few ++ sct ++ C) as [|b0 rest] eqn:EB; [done|].
  intros [= <-].
  destruct C as [|c0 crest] eqn:EC.
  - exists 9999%Q. split; [done | by right].
  - exists (min_of c0 crest). split; [done|]. left.
    apply min_of_le. rewrite <- EB.
    apply in_or_app. right. apply in_or_app. right. apply min_of_In.
Qed.

Lemma base_not_above_ceiling_witness :
  ∃ c, get_ceiling two_layers (Some "ESSA 32010KT 8000 FEW008 BKN015"%string) = Number c
       ∧ ((800 <= c)%Q ∨ c = 9999%Q).
Proof.
  apply (base_not_above_ceiling two_layers). reflexivity.
Defined.

(** Two kinds of report are settled without the parser: a report of fewer
    than three tokens gives no value in any column, and a report whose
    preprocessed text holds CAVOK gives 9999 in every column, which meets
    the minima by day and by night. *)
Theorem reports_settled_without_parser (Metar : string → option parse_metar.Observation)
    (metar : string) :
  (preprocess_metar metar = None →
     parse_metar_str Metar metar = (Missing, Missing, Missing))
  ∧ (∀ text, preprocess_metar metar = Some text →
       contains "CAVOK" text = true →
       parse_metar_str Metar metar = (Number 9999, Number 9999, Number 9999)
       ∧ ∀ day, hems_minima {| daylight := day;
                               metar_cloud_ceiling := Some 9999%Q;
                               metar_cloud_base := Some 9999%Q;
                               metar_visibility := Some 9999%Q |} = Some true).
Proof.
  unfold parse_metar_str. cbv zeta. split.
  - by intros ->.
  - intros text -> Hc. split.
    + unfold get_horisontal_visibility, get_ceiling, get_base. by rewrite Hc.
    + by intros [|].
Qed.

Lemma reports_settled_without_parser_witness :
  parse_metar_str no_parser "ESSA 010000Z 32010KT CAVOK"%string
  = (Number 9999, Number 9999, Number 9999)
  ∧ parse_metar_str no_parser "ESSA CAVOK"%string = (Missing, Missing, Missing).
Proof.
  split.
  - by apply (reports_settled_without_parser no_parser
                "ESSA 010000Z 32010KT CAVOK"%string) with (text := "ESSA 010000Z CAVOK"%string).
  - by apply (reports_settled_without_parser no_parser "ESSA CAVOK"%string).
Defined.

End Metar.

(** ** Loading the flight data *)

Section FlightData.
Import load_flight_data.

(** *** Group keys *)

Lemma groupby_keys_NoDup (keys : list Z) : NoDup (groupby_keys keys).
Proof.
  unfold groupby_keys. rewrite (merge_sort_Permutation Z.le).
  apply NoDup_remove_dups.
Qed.

Lemma elem_of_groupby_keys (keys : list Z) (k : Z) :
  k ∈ groupby_keys keys ↔ k ∈ keys.
Proof.
  unfold groupby_keys. rewrite (merge_sort_Permutation Z.le).
  apply elem_of_remove_dups.
Qed.

Lemma StronglySorted_le_lt (l : list Z) :
  StronglySorted Z.le l → NoDup l → StronglySorted Z.lt l.
Proof.
  induction 1 as [|x l Hl IH Hx]; intros Hnd; [constructor|].
  apply NoDup_cons in Hnd as [Hnot Hnd].
  constructor; [by apply IH|].
  apply Forall_forall. intros y Hy.
  assert (x <= y) by (by eapply Forall_forall in Hx).
  assert (x ≠ y) by (by intros ->).
  lia.
Qed.

Lemma groupby_keys_sorted (keys : list Z) : StronglySorted Z.lt (groupby_keys keys).
Proof.
  apply StronglySorted_le_lt; [|apply groupby_keys_NoDup].
  unfold groupby_keys. apply (StronglySorted_merge_sort Z.le).
Qed.

(** *** Groups put one after the other *)

Lemma filter_groups {A K} `{EqDecision K} (key : A → K) (g : K → list A)
    (keys : list K) (k : K) :
  NoDup keys → (∀ k' x, x ∈ g k' → key x = k') →
  filter (fun x => key x = k) (concat (map g keys))
  = if decide (k ∈ keys) then g k else [].
Proof.
  intros Hnd Hg. induction Hnd as [|k0 ks Hk0 Hnd IH]; cbn [map concat].
  - by rewrite decide_False by apply not_elem_of_nil.
  - rewrite filter_app, IH.
    destruct (decide (k = k0)) as [->|Hne].
    + rewrite (decide_False (P := k0 ∈ ks)) by done.
      rewrite (decide_True (P := k0 ∈ k0 :: ks)) by apply list_elem_of_here.
      rewrite (filter_all (fun x => key x = k0)) by apply Hg.
      apply app_nil_r.
    + rewrite (filter_none (fun x => key x = k)).
      2:{ intros x Hx Hkx. apply Hg in Hx. congruence. }
      cbn [app]. destruct (decide (k ∈ ks)) as [Hin|Hin].
      * by rewrite decide_True by (by apply list_elem_of_further).
      * rewrite decide_False; [done|].
        intros [?|?]%elem_of_cons; done.
Qed.

Lemma elem_of_removelast {A} (l : list A) (x : A) : x ∈ removelast l → x ∈ l.
Proof.
  induction l as [|a [|b l] IH]; simpl; [done| |].
  - by intros ?%elem_of_nil.
  - intros [->|Hx]%elem_of_cons; [apply list_elem_of_here|].
    apply list_elem_of_further. by apply IH.
Qed.

Lemma length_removelast {A} (l : list A) :
  l ≠ [] → (length (removelast l) + 1 = length l)%nat.
Proof.
  induction l as [|a [|b l] IH]; intros Hl; [done|done|].
  change (removelast (a :: b :: l)) with (a :: removelast (b :: l)).
  specialize (IH ltac:(done)). cbn [length] in *. lia.
Qed.

Lemma length_groups_removelast {A} (g : Z → list A) (keys : list Z) :
  (∀ k, k ∈ keys → g k ≠ []) →
  (length (concat (map (fun k => removelast (g k)) keys)) + length keys
   = length (concat (map g keys)))%nat.
Proof.
  induction keys as [|k ks IH]; intros Hg; [done|].
  simpl. rewrite !length_app.
  rewrite <- (length_removelast (g k)) by apply Hg, list_elem_of_here.
  rewrite <- IH; [lia|].
  intros k' Hk'. by apply Hg, list_elem_of_further.
Qed.

(** From every flight the last position is dropped and nothing else: the
    positions of a flight in the returned frame are its positions in the
    same order, without the last one.  A flight with a single position is
    gone. *)
Theorem drop_last_each_flight {A} (positions_df : list (Z * A)) (flight_id : Z) :
  filter (fun row => fst row = flight_id) (drop_last positions_df)
  = removelast (filter (fun row => fst row = flight_id) positions_df).
Proof.
  unfold drop_last.
  rewrite (filter_groups fst
             (fun k => removelast (filter (fun row => fst row = k) positions_df))).
  - destruct (decide (flight_id ∈ groupby_keys (map fst positions_df)))
      as [Hin|Hin]; [done|].
    rewrite (filter_none (fun row => fst row = flight_id)); [done|].
    intros row Hrow Hk. apply Hin, elem_of_groupby_keys.
    apply list_elem_of_fmap. by exists row.
  - apply groupby_keys_NoDup.
  - intros k row Hrow%elem_of_removelast.
    by apply (list_elem_of_filter (fun row => fst row = k)) in Hrow as [? _].
Qed.

(** The returned frame has one row less for every flight of the input. *)
Theorem drop_last_length {A} (positions_df : list (Z * A)) :
  (length (drop_last positions_df)
   + length (groupby_keys (map fst positions_df))
   = length positions_df)%nat.
Proof.
  unfold drop_last.
  rewrite (length_groups_removelast
             (fun k => filter (fun row => fst row = k) positions_df)).
  - apply Permutation_length.
    apply (groups_Permutation fst); [apply groupby_keys_NoDup|].
    intros row Hrow. apply elem_of_groupby_keys.
    apply list_elem_of_fmap. by exists row.
  - intros k Hk. apply (proj1 (elem_of_groupby_keys _ _)) in Hk.
    apply list_elem_of_fmap in Hk as (row & -> & Hrow).
    intros Hnil.
    assert (row ∈ filter (fun r => fst r = fst row) positions_df) as Hin
      by (by apply (list_elem_of_filter (fun r => fst r = fst row))).
    rewrite Hnil in Hin. by apply elem_of_nil in Hin.
Qed.

(** *** The filtered frame *)

Local Abbreviation aircraft_of j := (aircraft_id (left j)).

(** The row of the returned frame made of a joined row, if its aircraft
    is known. *)
Local Abbreviation returned j := ((fun a => position a j) <$> aircraft_of j).

Lemma sort_groups_group (d : list Joined) (k : Z) :
  map (position k) (filter (fun j => aircraft_of j = Some k) d)
  = filter (fun p => find_transfers.Position.aircraft_id p = k)
           (omap (fun j => returned j) d).
Proof.
  induction d as [|j d IH]; [done|].
  rewrite filter_cons. simpl omap.
  destruct (aircraft_id (left j)) as [a|] eqn:Ea; simpl.
  - rewrite filter_cons. simpl.
    destruct (decide (a = k)) as [->|Hne].
    + rewrite decide_True by done. simpl. by rewrite IH.
    + rewrite decide_False by congruence. exact IH.
  - exact IH.
Qed.

Lemma sort_groups_Permutation (d : list Joined) :
  sort_groups d ≡ₚ omap (fun j => returned j) d.
Proof.
  unfold sort_groups.
  etrans; [|apply (groups_Permutation find_transfers.Position.aircraft_id
                     (groupby_keys (omap (fun j => aircraft_of j) d)))].
  - apply concat_map_Permutation. intros k.
    rewrite <- sort_groups_group.
    apply Permutation_map, (merge_sort_Permutation UTC_le).
  - apply groupby_keys_NoDup.
  - intros p Hp. apply elem_of_groupby_keys.
    apply list_elem_of_omap in Hp as (j & Hj & Hp).
    apply list_elem_of_omap. exists j. split; [done|].
    destruct (aircraft_id (left j)) as [a|]; [|done].
    simpl in Hp. by injection Hp as <-.
Qed.

#[local] Instance UTC_le_trans : Transitive UTC_le.
Proof. unfold UTC_le. intros a b c. lia. Qed.

#[local] Instance UTC_le_total : Total UTC_le.
Proof. unfold UTC_le. intros a b. lia. Qed.

Local Abbreviation by_aircraft_then_UTC :=
  (fun a b : find_transfers.Position.t =>
     find_transfers.Position.aircraft_id a < find_transfers.Position.aircraft_id b
     ∨ (find_transfers.Position.aircraft_id a = find_transfers.Position.aircraft_id b
        ∧ find_transfers.Position.UTC a <= find_transfers.Position.UTC b)).

Lemma sort_groups_sorted (d : list Joined) :
  StronglySorted by_aircraft_then_UTC (sort_groups d).
Proof.
  unfold sort_groups.
  generalize (groupby_keys_sorted (omap (fun j => aircraft_of j) d)).
  generalize (groupby_keys (omap (fun j => aircraft_of j) d)).
  intros keys Hkeys. induction Hkeys as [|k ks Hks IH Hk]; simpl; [constructor|].
  apply StronglySorted_app_2; [| |exact IH].
  - intros p q Hp Hq. left.
    apply list_elem_of_fmap in Hp as (j & -> & _).
    apply list_elem_of_In, in_concat in Hq as (group & Hgroup & Hq).
    apply list_elem_of_In in Hgroup, Hq.
    apply list_elem_of_fmap in Hgroup as (k' & -> & Hk').
    apply list_elem_of_fmap in Hq as (j' & -> & _). simpl.
    by eapply Forall_forall in Hk.
  - eapply (StronglySorted_fmap _ UTC_le);
      [|apply (StronglySorted_merge_sort UTC_le)].
    intros a b Hab. right. split; [done|exact Hab].
Qed.

(** The returned frame is ordered by aircraft and, for one aircraft, by
    time: every row comes before the rows of the aircraft with a greater
    id and before the later rows of its own aircraft. *)
Theorem filter_flight_data_sorted (within : find_transfers.Geometry → list Zone)
    (d : list Flight) (include_equip exclude_callsign : list string) :
  StronglySorted by_aircraft_then_UTC
    (filter_flight_data within d include_equip exclude_callsign).
Proof. unfold filter_flight_data. cbv zeta. apply sort_groups_sorted. Qed.

(** The returned frame holds, each exactly once, the joined rows of the
    positions whose equipment is listed in [include_equip], whose
    registration is not listed in [exclude_callsign] and whose aircraft is
    known; no other row is returned. *)
Theorem filter_flight_data_rows (within : find_transfers.Geometry → list Zone)
    (d : list Flight) (include_equip exclude_callsign : list string) :
  filter_flight_data within d include_equip exclude_callsign
  ≡ₚ omap (fun j => returned j)
       (filter (fun row => ¬ isin (reg row) exclude_callsign
                           ∧ isin (equip row) include_equip) d
        ≫= sjoin_left within).
Proof.
  unfold filter_flight_data. cbv zeta.
  rewrite sort_groups_Permutation.
  by rewrite list_filter_filter.
Qed.

(** On the example frame the aircraft of the equipment B737 is left out
    and the positions come out by aircraft and time. *)
Example filter_flight_data_example :
  map (fun p => (find_transfers.Position.aircraft_id p, find_transfers.Position.UTC p))
      (filter_flight_data no_zone raw_positions include_equip exclude_callsign)
  = [(1, 20); (1, 30); (2, 10); (2, 50)].
Proof. vm_compute. reflexivity. Qed.

End FlightData.
